(** * CryptoBot: the DDQN trading agent and the pandas convenience helpers

    A shallow embedding of [src/q_learning.py] (class [DDQNAgent], the
    results table) and of [src/test.py] ([mask], [flatten_cols]), followed by
    the properties of the specification that concern them.

    Conventions of the embedding.
    - Python [int] is [Z].  Python [float] is a type [R] with the operations
      of class [Num]; two instances are given, exact rationals [Qc] (the
      arithmetic the specification reasons in) and IEEE binary64 [float]
      (the arithmetic the interpreter runs).
    - A method of the agent is a function from the agent before the call to
      an outcome and the agent after it; a raised exception is an outcome,
      and the agent after it keeps the assignments made before the raise.
    - Random draws ([np.random.rand], [np.random.choice], [random.sample])
      are arguments of the method that consumes them.
    - The Keras models are abstract: a network has weights and internals
      (optimizer slots, dropout stream); inference of one row and one
      training step are parameters of the development. *)

From Stdlib Require Import ZArith QArith Qcanon Floats Ascii String Lia Lqa.
From stdpp Require Import base option list gmap strings.

Set Warnings "-inexact-float".
Local Open Scope Z_scope.

(** ** Outcomes of Python code *)

Module Py.

Inductive exn : Set :=
| ZeroDivisionError
| ValueError
| IndexError
| KeyError.

Inductive result (A : Type) : Type :=
| Ok (a : A)
| Raise (e : exn).
Arguments Ok {A} a.
Arguments Raise {A} e.

Definition bind {A B : Type} (r : result A) (k : A → result B) : result B :=
  match r with
  | Ok a => k a
  | Raise e => Raise e
  end.

Fixpoint mapM {A B : Type} (f : A → result B) (l : list A) : result (list B) :=
  match l with
  | [] => Ok []
  | x :: l' => bind (f x) (λ y, bind (mapM f l') (λ ys, Ok (y :: ys)))
  end.

Definition is_ok {A : Type} (r : result A) : bool :=
  match r with Ok _ => true | Raise _ => false end.

End Py.
Import Py.

(** Sequencing is written [x ← r; k]. *)
#[export] Instance result_ret : MRet Py.result := @Py.Ok.
#[export] Instance result_bind : MBind Py.result := λ A B k r, Py.bind r k.

Declare Scope py_scope.
Delimit Scope py_scope with py.

(** ** Numbers *)

Class Num (R : Type) : Type := {
  of_Z : Z → R;
  add : R → R → R;
  sub : R → R → R;
  mul : R → R → R;
  div : R → R → R;
  leb : R → R → bool;
  ltb : R → R → bool;
  (* [bool(x)]: a number is true unless it equals zero *)
  truthy : R → bool
}.

Infix "+" := add : py_scope.
Infix "-" := sub : py_scope.
Infix "*" := mul : py_scope.
Infix "/" := div : py_scope.
Infix "<=?" := leb : py_scope.
Infix "<?" := ltb : py_scope.

#[export] Instance Qc_Num : Num Qc := {|
  of_Z z := Q2Qc (inject_Z z);
  add := Qcplus;
  sub := Qcminus;
  mul := Qcmult;
  div := Qcdiv;
  leb x y := Qle_bool x y;
  ltb x y := negb (Qle_bool y x);
  truthy x := negb (Qeq_bool x 0)
|}.

(** [float(z)] rounds to the nearest binary64 value (ties to even). *)
Definition float_of_Z (z : Z) : float :=
  SF2Prim (binary_normalize prec emax z 0 false).

#[export] Instance float_Num : Num float := {|
  of_Z := float_of_Z;
  add := PrimFloat.add;
  sub := PrimFloat.sub;
  mul := PrimFloat.mul;
  div := PrimFloat.div;
  leb := PrimFloat.leb;
  ltb := PrimFloat.ltb;
  truthy x := negb (PrimFloat.eqb x 0%float)
|}.

(** ** [collections.deque] with a [maxlen] *)

Module Deque.

Record deque (T : Type) : Type := {
  items : list T;
  maxlen : nat
}.
Arguments items {T} d.
Arguments maxlen {T} d.

(** [deque([], maxlen=n)] *)
Definition empty {T : Type} (n : nat) : deque T :=
  {| items := []; maxlen := n |}.

(** [d.append(x)]: the item is added on the right; when the deque is then
    longer than [maxlen], one item is removed on the left. *)
Definition append {T : Type} (d : deque T) (x : T) : deque T :=
  let l := items d ++ [x] in
  {| items := if (maxlen d <? length l)%nat then drop 1 l else l;
     maxlen := maxlen d |}.

(** [len(d)] *)
Definition len {T : Type} (d : deque T) : Z := Z.of_nat (length (items d)).

End Deque.
Import Deque.

(** ** numpy helpers *)

(** [np.argmax] of one row: the first position of the largest entry;
    an empty row raises. *)
Fixpoint argmax_from {R : Type} `{Num R} (best : nat) (bestv : R) (i : nat)
    (l : list R) : nat :=
  match l with
  | [] => best
  | x :: l' =>
      if (bestv <? x)%py then argmax_from i x (S i) l'
      else argmax_from best bestv (S i) l'
  end.

Definition argmax {R : Type} `{Num R} (l : list R) : result nat :=
  match l with
  | [] => Raise ValueError
  | x :: l' => Ok (argmax_from 0%nat x 1%nat l')
  end.

(** An integer index into an axis of length [n]: negative indices count from
    the end. *)
Definition np_index (n : nat) (a : Z) : result nat :=
  if (0 <=? a) && (a <? Z.of_nat n) then Ok (Z.to_nat a)
  else if (- Z.of_nat n <=? a) && (a <? 0) then Ok (Z.to_nat (a + Z.of_nat n))
  else Raise IndexError.

(** [random.sample(population, k)], by the pool algorithm: the [i]-th pick is
    position [randbelow(n - i)] of the pool, and the last live item of the
    pool moves into the vacancy.  [rnd] lists the random words, each reduced
    below its bound. *)
Fixpoint sample_pool {T : Type} (pool : list T) (k : nat) (rnd : list nat)
    : list T :=
  match k with
  | O => []
  | S k' =>
      let n := length pool in
      let j := (hd 0%nat rnd mod n)%nat in
      match pool !! j, last pool with
      | Some x, Some y =>
          x :: sample_pool (take (n - 1) (<[j := y]> pool)) k' (tl rnd)
      | _, _ => []
      end
  end.

Definition sample {T : Type} (population : list T) (k : Z) (rnd : list nat)
    : result (list T) :=
  if (0 <=? k) && (k <=? Z.of_nat (length population))
  then Ok (sample_pool population (Z.to_nat k) rnd)
  else Raise ValueError.

(** ** The agent ([class DDQNAgent]) *)

Module Agent.

Section DDQN.

Context {R : Type} `{Num R}.
(** An observation vector of the environment. *)
Context {obs : Type}.
(** What [get_weights] returns, and the rest of a compiled Keras model. *)
Context {weights internals : Type}.

Record network : Type := {
  get_weights : weights;
  net_internals : internals
}.

(** [n.set_weights(w)] *)
Definition set_weights (n : network) (w : weights) : network :=
  {| get_weights := w; net_internals := net_internals n |}.

(** One row of [predict]/[predict_on_batch]: the action-values of one
    observation. *)
Context (forward : network → obs → list R).
(** [train_on_batch(x, y)]: the network after one gradient step, and the
    loss. *)
Context (train_on_batch : network → list obs → list (list R) → network * R).
(** [build_model(trainable)] from the constructor's arguments [state_dim],
    [num_actions], [architecture], [l2_reg], [learning_rate]. *)
Context (build_model : Z → Z → list Z → R → R → bool → network).

Definition predict_on_batch (n : network) (xs : list obs) : list (list R) :=
  map (forward n) xs.

(** [(s, a, r, s_prime, not_done)] *)
Definition transition : Type := obs * Z * R * obs * R.

Record DDQNAgent : Type := {
  state_dim : Z;
  num_actions : Z;
  experience : deque transition;
  learning_rate : R;
  gamma : R;
  architecture : list Z;
  l2_reg : R;
  online_network : network;
  target_network : network;
  epsilon : R;
  epsilon_decay_steps : Z;
  epsilon_decay : R;
  epsilon_exponential_decay : R;
  epsilon_history : list R;
  total_steps : Z;
  train_steps : Z;
  episodes : Z;
  episode_length : Z;
  train_episodes : Z;
  steps_per_episode : list Z;
  episode_reward : R;
  rewards_history : list R;
  batch_size : Z;
  tau : Z;
  losses : list R;
  idx : list nat;
  train : bool
}.

(** Assignments to one attribute of [self]. *)

Definition set_experience (v : deque transition) (a : DDQNAgent) : DDQNAgent :=
  let 'Build_DDQNAgent sd na ex lr ga ar l2 on tn ep eds ed eed eh ts trs es
         el te spe er rh bs ta lo ix tr := a in
  Build_DDQNAgent sd na v lr ga ar l2 on tn ep eds ed eed eh ts trs es
         el te spe er rh bs ta lo ix tr.

Definition set_online_network (v : network) (a : DDQNAgent) : DDQNAgent :=
  let 'Build_DDQNAgent sd na ex lr ga ar l2 on tn ep eds ed eed eh ts trs es
         el te spe er rh bs ta lo ix tr := a in
  Build_DDQNAgent sd na ex lr ga ar l2 v tn ep eds ed eed eh ts trs es
         el te spe er rh bs ta lo ix tr.

Definition set_target_network (v : network) (a : DDQNAgent) : DDQNAgent :=
  let 'Build_DDQNAgent sd na ex lr ga ar l2 on tn ep eds ed eed eh ts trs es
         el te spe er rh bs ta lo ix tr := a in
  Build_DDQNAgent sd na ex lr ga ar l2 on v ep eds ed eed eh ts trs es
         el te spe er rh bs ta lo ix tr.

Definition set_epsilon (v : R) (a : DDQNAgent) : DDQNAgent :=
  let 'Build_DDQNAgent sd na ex lr ga ar l2 on tn ep eds ed eed eh ts trs es
         el te spe er rh bs ta lo ix tr := a in
  Build_DDQNAgent sd na ex lr ga ar l2 on tn v eds ed eed eh ts trs es
         el te spe er rh bs ta lo ix tr.

Definition set_total_steps (v : Z) (a : DDQNAgent) : DDQNAgent :=
  let 'Build_DDQNAgent sd na ex lr ga ar l2 on tn ep eds ed eed eh ts trs es
         el te spe er rh bs ta lo ix tr := a in
  Build_DDQNAgent sd na ex lr ga ar l2 on tn ep eds ed eed eh v trs es
         el te spe er rh bs ta lo ix tr.

Definition set_episodes (v : Z) (a : DDQNAgent) : DDQNAgent :=
  let 'Build_DDQNAgent sd na ex lr ga ar l2 on tn ep eds ed eed eh ts trs es
         el te spe er rh bs ta lo ix tr := a in
  Build_DDQNAgent sd na ex lr ga ar l2 on tn ep eds ed eed eh ts trs v
         el te spe er rh bs ta lo ix tr.

Definition set_episode_length (v : Z) (a : DDQNAgent) : DDQNAgent :=
  let 'Build_DDQNAgent sd na ex lr ga ar l2 on tn ep eds ed eed eh ts trs es
         el te spe er rh bs ta lo ix tr := a in
  Build_DDQNAgent sd na ex lr ga ar l2 on tn ep eds ed eed eh ts trs es
         v te spe er rh bs ta lo ix tr.

Definition set_steps_per_episode (v : list Z) (a : DDQNAgent) : DDQNAgent :=
  let 'Build_DDQNAgent sd na ex lr ga ar l2 on tn ep eds ed eed eh ts trs es
         el te spe er rh bs ta lo ix tr := a in
  Build_DDQNAgent sd na ex lr ga ar l2 on tn ep eds ed eed eh ts trs es
         el te v er rh bs ta lo ix tr.

Definition set_episode_reward (v : R) (a : DDQNAgent) : DDQNAgent :=
  let 'Build_DDQNAgent sd na ex lr ga ar l2 on tn ep eds ed eed eh ts trs es
         el te spe er rh bs ta lo ix tr := a in
  Build_DDQNAgent sd na ex lr ga ar l2 on tn ep eds ed eed eh ts trs es
         el te spe v rh bs ta lo ix tr.

Definition set_rewards_history (v : list R) (a : DDQNAgent) : DDQNAgent :=
  let 'Build_DDQNAgent sd na ex lr ga ar l2 on tn ep eds ed eed eh ts trs es
         el te spe er rh bs ta lo ix tr := a in
  Build_DDQNAgent sd na ex lr ga ar l2 on tn ep eds ed eed eh ts trs es
         el te spe er v bs ta lo ix tr.

Definition set_losses (v : list R) (a : DDQNAgent) : DDQNAgent :=
  let 'Build_DDQNAgent sd na ex lr ga ar l2 on tn ep eds ed eed eh ts trs es
         el te spe er rh bs ta lo ix tr := a in
  Build_DDQNAgent sd na ex lr ga ar l2 on tn ep eds ed eed eh ts trs es
         el te spe er rh bs ta v ix tr.

(** [tf.range(n)] *)
Definition tf_range (n : Z) : list nat := seq 0 (Z.to_nat n).

(** [update_target] *)
Definition update_target (self : DDQNAgent) : DDQNAgent :=
  set_target_network
    (set_weights (target_network self) (get_weights (online_network self)))
    self.

(** [__init__].  [deque] refuses a negative [maxlen]; dividing by a zero
    [epsilon_decay_steps] raises. *)
Definition __init__ (state_dim num_actions : Z) (learning_rate gamma : R)
    (epsilon_start epsilon_end : R) (epsilon_decay_steps : Z)
    (epsilon_exponential_decay : R) (replay_capacity : Z)
    (architecture : list Z) (l2_reg : R) (tau batch_size : Z)
    : result DDQNAgent :=
  if replay_capacity <? 0 then Raise ValueError
  else
    let online :=
      build_model state_dim num_actions architecture l2_reg learning_rate true in
    let target :=
      build_model state_dim num_actions architecture l2_reg learning_rate false in
    if epsilon_decay_steps =? 0 then Raise ZeroDivisionError
    else
      Ok (update_target
        {| state_dim := state_dim;
           num_actions := num_actions;
           experience := Deque.empty (Z.to_nat replay_capacity);
           learning_rate := learning_rate;
           gamma := gamma;
           architecture := architecture;
           l2_reg := l2_reg;
           online_network := online;
           target_network := target;
           epsilon := epsilon_start;
           epsilon_decay_steps := epsilon_decay_steps;
           epsilon_decay :=
             ((epsilon_start - epsilon_end) / of_Z epsilon_decay_steps)%py;
           epsilon_exponential_decay := epsilon_exponential_decay;
           epsilon_history := [];
           total_steps := 0;
           train_steps := 0;
           episodes := 0;
           episode_length := 0;
           train_episodes := 0;
           steps_per_episode := [];
           episode_reward := of_Z 0;
           rewards_history := [];
           batch_size := batch_size;
           tau := tau;
           losses := [];
           idx := tf_range batch_size;
           train := true |}).

(** [epsilon_greedy_policy].  [u] is the value of [np.random.rand()] and [c]
    the value of [np.random.choice(num_actions)]; [state] is the one-row
    batch the driver passes. *)
Definition epsilon_greedy_policy (state : obs) (u : R) (c : Z)
    (self : DDQNAgent) : result Z * DDQNAgent :=
  let self := set_total_steps (total_steps self + 1) self in
  if (u <=? epsilon self)%py then
    if num_actions self <=? 0 then (Raise ValueError, self)
    else (Ok c, self)
  else
    let q := forward (online_network self) state in
    match argmax q with
    | Ok b => (Ok (Z.of_nat b), self)
    | Raise e => (Raise e, self)
    end.

(** [memorize_transition] *)
Definition memorize_transition (s : obs) (a : Z) (r : R) (s_prime : obs)
    (not_done : R) (self : DDQNAgent) : DDQNAgent :=
  let self :=
    if truthy not_done then
      let self := set_episode_reward (episode_reward self + r)%py self in
      set_episode_length (episode_length self + 1) self
    else
      let self :=
        if train self then
          if episodes self <? epsilon_decay_steps self then
            set_epsilon (epsilon self - epsilon_decay self)%py self
          else
            set_epsilon (epsilon self * epsilon_exponential_decay self)%py self
        else self in
      let self := set_episodes (episodes self + 1) self in
      let self :=
        set_rewards_history (rewards_history self ++ [episode_reward self]) self in
      let self :=
        set_steps_per_episode (steps_per_episode self ++ [episode_length self])
          self in
      set_episode_length 0 (set_episode_reward (of_Z 0) self)
  in
  set_experience (Deque.append (experience self) (s, a, r, s_prime, not_done))
    self.

(** The five columns of a mini-batch (the rows, transposed). *)
Definition states_of (b : list transition) : list obs :=
  map (λ t, let '(s, _, _, _, _) := t in s) b.
Definition actions_of (b : list transition) : list Z :=
  map (λ t, let '(_, a, _, _, _) := t in a) b.
Definition rewards_of (b : list transition) : list R :=
  map (λ t, let '(_, _, r, _, _) := t in r) b.
Definition next_states_of (b : list transition) : list obs :=
  map (λ t, let '(_, _, _, s', _) := t in s') b.
Definition not_done_of (b : list transition) : list R :=
  map (λ t, let '(_, _, _, _, nd) := t in nd) b.

(** [tf.gather_nd(m, tf.stack((rows, cols), axis=1))] *)
Definition gather_nd (m : list (list R)) (rows cols : list nat)
    : result (list R) :=
  if negb (length rows =? length cols)%nat then Raise ValueError
  else
    mapM (λ ij : nat * nat,
            match m !! ij.1 ≫= (λ row, row !! ij.2) with
            | Some v => Ok v
            | None => Raise IndexError
            end)
         (zip rows cols).

(** [m[[rows, cols]] = vals], for three arrays with one entry per sample
    (the shapes the method produces); other shapes are refused. *)
Fixpoint scatter (m : list (list R)) (rows : list nat) (cols : list Z)
    (vals : list R) : result (list (list R)) :=
  match rows, cols, vals with
  | [], [], [] => Ok m
  | i :: rows', a :: cols', v :: vals' =>
      match m !! i with
      | None => Raise IndexError
      | Some row =>
          j ← np_index (length row) a;
          scatter (<[i := <[j := v]> row]> m) rows' cols' vals'
      end
  | _, _, _ => Raise ValueError
  end.

(** The Double-Q regression targets of a mini-batch: lines
    [next_q_values = ...] to [targets = ...] of [experience_replay]. *)
Definition targets_of (self : DDQNAgent) (minibatch : list transition)
    : result (list R) :=
  let next_states := next_states_of minibatch in
  let next_q_values := predict_on_batch (online_network self) next_states in
  best_actions ← mapM argmax next_q_values;
  let next_q_values_target :=
    predict_on_batch (target_network self) next_states in
  target_q_values ← gather_nd next_q_values_target (idx self) best_actions;
  Ok (zip_with (λ r ng, (r + ng.1 * gamma self * ng.2)%py)
        (rewards_of minibatch)
        (zip (not_done_of minibatch) target_q_values)).

(** [experience_replay].  [rnd] feeds [random.sample]. *)
Definition experience_replay (rnd : list nat) (self : DDQNAgent)
    : result unit * DDQNAgent :=
  if batch_size self >? Deque.len (experience self) then (Ok tt, self)
  else
    match sample (items (experience self)) (batch_size self) rnd with
    | Raise e => (Raise e, self)
    | Ok [] => (Raise ValueError, self)
    | Ok minibatch =>
        let states := states_of minibatch in
        let actions := actions_of minibatch in
        match targets_of self minibatch with
        | Raise e => (Raise e, self)
        | Ok targets =>
            let q_values := predict_on_batch (online_network self) states in
            match scatter q_values (idx self) actions targets with
            | Raise e => (Raise e, self)
            | Ok q_values =>
                let '(online, loss) :=
                  train_on_batch (online_network self) states q_values in
                let self := set_online_network online self in
                let self := set_losses (losses self ++ [loss]) self in
                if tau self =? 0 then (Raise ZeroDivisionError, self)
                else if total_steps self mod tau self =? 0
                     then (Ok tt, update_target self)
                     else (Ok tt, self)
            end
        end
    end.

(** The calls the driver makes on the agent, and the agent after one of
    them, whatever its outcome. *)
Inductive call : Type :=
| Act (state : obs) (u : R) (c : Z)
| Memorize (s : obs) (a : Z) (r : R) (s_prime : obs) (not_done : R)
| Replay (rnd : list nat).

Definition step (self : DDQNAgent) (c : call) : DDQNAgent :=
  match c with
  | Act state u c => (epsilon_greedy_policy state u c self).2
  | Memorize s a r s' nd => memorize_transition s a r s' nd self
  | Replay rnd => (experience_replay rnd self).2
  end.

Definition run (self : DDQNAgent) (calls : list call) : DDQNAgent :=
  fold_left step calls self.

End DDQN.

End Agent.

(** ** The results table of the notebook *)

Module Results.

(** [s.rolling(window).sum()], as pandas computes it: one pass that keeps the
    current window and its sum, removes the value that leaves the window,
    adds the value that enters it, and gives no value while the window holds
    fewer than [window] observations ([min_periods] defaults to [window]). *)
Fixpoint roll_sum (window : nat) (win : list Z) (sum_x : Z) (values : list Z)
    : list (option Z) :=
  match values with
  | [] => []
  | v :: rest =>
      let '(win, sum_x) :=
        if (window <=? length win)%nat
        then (drop 1 win, sum_x - hd 0 win)
        else (win, sum_x) in
      let win := win ++ [v] in
      let sum_x := sum_x + v in
      (if (window <=? length win)%nat then Some sum_x else None)
        :: roll_sum window win sum_x rest
  end.

Definition rolling_sum (window : nat) (values : list Z) : list (option Z) :=
  roll_sum window [] 0 values.

Section Table.

Context {R : Type} `{Num R}.

Record table : Type := {
  Episode : list Z;
  Agent : list R;
  Market : list R;
  Difference : list R;
  Strategy_Wins : list (option Z)
}.

(** [results.Difference > 0], one entry *)
Definition positive (d : R) : bool := (of_Z 0 <? d)%py.

(** [(results.Difference > 0).rolling(100).sum()]; the booleans count as
    0 and 1. *)
Definition strategy_wins (diffs : list R) : list (option Z) :=
  rolling_sum 100 (map (λ d, if positive d then 1 else 0) diffs).

(** [list(range(1, episode+1))] *)
Definition episode_index (episode : Z) : list Z :=
  map (λ k, Z.of_nat k) (seq 1 (Z.to_nat episode)).

(** The cell that builds [results]; columns of unequal length are refused
    by [pd.DataFrame]. *)
Definition results (episode : Z) (navs market_navs diffs : list R)
    : result table :=
  let ix := episode_index episode in
  if (length navs =? length ix)%nat && (length market_navs =? length ix)%nat
     && (length diffs =? length ix)%nat
  then Ok {| Episode := ix;
             Agent := navs;
             Market := market_navs;
             Difference := diffs;
             Strategy_Wins := strategy_wins diffs |}
  else Raise ValueError.

(** Whether the Difference of episode [j] (1-based) is positive. *)
Definition win_at (diffs : list R) (j : nat) : bool :=
  match diffs !! (j - 1)%nat with
  | Some d => positive d
  | None => false
  end.

(** The number of episodes [j] with [lo <= j <= hi] whose Difference is
    positive. *)
Definition wins_between (diffs : list R) (lo hi : nat) : Z :=
  Z.of_nat (length (List.filter (win_at diffs) (seq lo (S hi - lo)))).

End Table.

End Results.

(** ** The pandas helpers of [test.py] *)

Module Frame.

(** [c.isspace()] for a code point below 256 *)
Definition isspace (c : ascii) : bool :=
  let n := nat_of_ascii c in
  ((9 <=? n) && (n <=? 13) || (28 <=? n) && (n <=? 32)
   || (n =? 133) || (n =? 160))%nat.

Fixpoint lstrip_chars (l : list ascii) : list ascii :=
  match l with
  | [] => []
  | c :: l' => if isspace c then lstrip_chars l' else l
  end.

Definition strip_chars (l : list ascii) : list ascii :=
  reverse (lstrip_chars (reverse (lstrip_chars l))).

(** [s.strip()] *)
Definition strip (s : string) : string :=
  string_of_list_ascii (strip_chars (list_ascii_of_string s)).

(** [sep.join(parts)] *)
Fixpoint join (sep : string) (parts : list string) : string :=
  match parts with
  | [] => EmptyString
  | [p] => p
  | p :: ps => String.append p (String.append sep (join sep ps))
  end.

(** A column label: a string, or a tuple of level values. *)
Inductive label : Type :=
| Flat (s : string)
| Levels (t : list string).

#[export] Instance label_eq_dec : EqDecision label.
Proof. solve_decision. Defined.

(** Iterating over a label: the characters of a string, the items of a
    tuple. *)
Definition parts_of (col : label) : list string :=
  match col with
  | Flat s => map (λ c, String c EmptyString) (list_ascii_of_string s)
  | Levels t => t
  end.

(** [' '.join(col).strip()] *)
Definition flat_label (col : label) : string :=
  strip (join " " (parts_of col)).

Section DataFrame.

(** The values of the cells. *)
Context {V : Type}.

(** A table: the column labels, the row labels, and the cells, one list
    per column. *)
Record DataFrame : Type := {
  columns : list label;
  index : list Z;
  data : list (list V)
}.

(** [df.columns = cols] *)
Definition set_columns (cols : list label) (df : DataFrame) : DataFrame :=
  {| columns := cols; index := index df; data := data df |}.

(** Position of the first item equal to [key]. *)
Fixpoint find_label (key : label) (cols : list label) : option nat :=
  match cols with
  | [] => None
  | c :: cols' =>
      if decide (c = key) then Some 0%nat else S <$> find_label key cols'
  end.

(** [df[key]] for a column label: the Series of that column, as pairs of row
    label and value. *)
Definition getitem_column (df : DataFrame) (key : label)
    : result (list (Z * V)) :=
  match find_label key (columns df) ≫= (λ j, data df !! j) with
  | Some col => Ok (zip (index df) col)
  | None => Raise KeyError
  end.

Fixpoint select {A : Type} (m : list bool) (l : list A) : list A :=
  match m, l with
  | b :: m', x :: l' => if b then x :: select m' l' else select m' l'
  | _, _ => []
  end.

(** [df[m]] for a boolean mask: a new table with the rows where the mask
    holds; a mask of the wrong length is refused. *)
Definition getitem_mask (df : DataFrame) (m : list bool) : result DataFrame :=
  if negb (length m =? length (index df))%nat then Raise ValueError
  else Ok {| columns := columns df;
             index := select m (index df);
             data := map (select m) (data df) |}.

(** The objects of the interpreter: a table lives at an address, and a
    variable holds the address.  An operation on an address that holds no
    table has no outcome ([None]). *)

(** [mask(df, key, function)]: [return df[function(df[key])]].  The result
    is a new object. *)
Definition mask (df : nat) (key : label) (function : list (Z * V) → list bool)
    (st : gmap nat DataFrame) : option (result nat * gmap nat DataFrame) :=
  t ← st !! df;
  Some
    match getitem_column t key with
    | Raise e => (Raise e, st)
    | Ok series =>
        match getitem_mask t (function series) with
        | Raise e => (Raise e, st)
        | Ok t' =>
            let r := fresh (dom st) in
            (Ok r, <[r := t']> st)
        end
    end.

(** [flatten_cols(df)] *)
Definition flatten_cols (df : nat) (st : gmap nat DataFrame)
    : option (result nat * gmap nat DataFrame) :=
  t ← st !! df;
  let cols := map (λ col, Flat (flat_label col)) (columns t) in
  Some (Ok df, <[df := set_columns cols t]> st).

End DataFrame.

End Frame.

(** ** A table-lookup network

    The smallest instance of the network parameters: an observation is a row
    number, the weights are the table of action-values, inference reads a
    row and a training step stores the regression targets.  It serves to run
    the agent on concrete inputs. *)

Module Tabular.

Section Table.

Context {R : Type} `{Num R}.

Definition net : Type := @Agent.network (list (list R)) unit.

Definition forward (n : net) (s : nat) : list R :=
  default [] (Agent.get_weights n !! s).

Definition fit (w : list (list R)) (xs : list nat) (ys : list (list R))
    : list (list R) :=
  fold_left (λ w xy, <[xy.1 := xy.2]> w) (zip xs ys) w.

Definition train_on_batch (n : net) (xs : list nat) (ys : list (list R))
    : net * R :=
  (Agent.set_weights n (fit (Agent.get_weights n) xs ys), of_Z 0).

Definition build_model (state_dim num_actions : Z) (architecture : list Z)
    (l2_reg learning_rate : R) (trainable : bool) : net :=
  {| Agent.get_weights :=
       replicate (Z.to_nat state_dim)
         (replicate (Z.to_nat num_actions) (of_Z 0));
     Agent.net_internals := tt |}.

End Table.

End Tabular.

(** ** The hyperparameters of the notebook *)

Module Notebook.

Section Hyper.

Context {R : Type} `{Num R}.

(** A decimal literal [n/d]: the quotient of two integers, rounded once. *)
Definition lit (n d : Z) : R := (of_Z n / of_Z d)%py.

(** [gamma = .99,] binds a one-item tuple; in the target it multiplies as
    the number it holds. *)
Definition gamma : R := lit 99 100.
Definition tau : Z := 100.
Definition architecture : list Z := [256; 256].
Definition learning_rate : R := lit 1 10000.
Definition l2_reg : R := lit 1 1000000.
Definition replay_capacity : Z := 1000000.
Definition batch_size : Z := 4096.
Definition epsilon_start : R := lit 1 1.
Definition epsilon_end : R := lit 1 100.
Definition epsilon_decay_steps : Z := 250.
Definition epsilon_exponential_decay : R := lit 99 100.

Context {obs weights internals : Type}.
Context (build_model :
  Z → Z → list Z → R → R → bool → @Agent.network weights internals).

(** [ddqn = DDQNAgent(...)] *)
Definition ddqn (state_dim num_actions : Z)
    : result (@Agent.DDQNAgent R obs weights internals) :=
  Agent.__init__ build_model state_dim num_actions learning_rate gamma
    epsilon_start epsilon_end epsilon_decay_steps epsilon_exponential_decay
    replay_capacity architecture l2_reg tau batch_size.

End Hyper.

End Notebook.

(** ** A small agent over exact rationals

    The table-lookup network over [Qc], two observations and three actions,
    with the exploration schedule of the notebook; the buffer capacity, the
    sync interval and the batch size are left open. *)

Module Demo.

Definition agent : Type := @Agent.DDQNAgent Qc nat (list (list Qc)) unit.

Definition q (n d : Z) : Qc := Notebook.lit n d.

Definition init (replay_capacity tau batch_size : Z) : result agent :=
  Agent.__init__ Tabular.build_model 2 3 (q 1 10000) (q 99 100)
    (q 1 1) (q 1 100) 250 (q 99 100) replay_capacity [4] (q 1 1000000)
    tau batch_size.

Definition zeros : @Agent.network (list (list Qc)) unit :=
  Tabular.build_model 2 3 [4] (q 1 1000000) (q 1 10000) true.

(** The agent [init] returns. *)
Definition start (replay_capacity tau batch_size : Z) : agent :=
  {| Agent.state_dim := 2;
     Agent.num_actions := 3;
     Agent.experience := Deque.empty (Z.to_nat replay_capacity);
     Agent.learning_rate := q 1 10000;
     Agent.gamma := q 99 100;
     Agent.architecture := [4];
     Agent.l2_reg := q 1 1000000;
     Agent.online_network := zeros;
     Agent.target_network := zeros;
     Agent.epsilon := q 1 1;
     Agent.epsilon_decay_steps := 250;
     Agent.epsilon_decay := ((q 1 1 - q 1 100) / of_Z 250)%py;
     Agent.epsilon_exponential_decay := q 99 100;
     Agent.epsilon_history := [];
     Agent.total_steps := 0;
     Agent.train_steps := 0;
     Agent.episodes := 0;
     Agent.episode_length := 0;
     Agent.train_episodes := 0;
     Agent.steps_per_episode := [];
     Agent.episode_reward := of_Z 0;
     Agent.rewards_history := [];
     Agent.batch_size := batch_size;
     Agent.tau := tau;
     Agent.losses := [];
     Agent.idx := Agent.tf_range batch_size;
     Agent.train := true |}.

Definition run (self : agent) (calls : list Agent.call) : agent :=
  Agent.run Tabular.forward Tabular.train_on_batch self calls.

(** Two greedy-or-not steps, one recorded transition with reward 1/2. *)
Definition two_steps : list (@Agent.call Qc nat) :=
  [ Agent.Act 0%nat (q 1 2) 1;
    Agent.Act 1%nat (q 1 2) 2;
    Agent.Memorize 0%nat 1 (q 1 2) 1%nat (q 1 1) ].

Definition table (rows : list (list Qc)) : @Agent.network (list (list Qc)) unit :=
  {| Agent.get_weights := rows; Agent.net_internals := tt |}.

(** A hand-built pair of networks.  In state 0 the online network prefers
    action 1, the target network action 2. *)
Definition hand : agent :=
  Agent.set_target_network
    (table [[q 7 1; q 3 1; q 9 1]; [q 0 1; q 0 1; q 0 1]])
    (Agent.set_online_network
       (table [[q 1 1; q 5 1; q 2 1]; [q 0 1; q 0 1; q 0 1]])
       (start 2 2 2)).

(** A continuing sample with reward 1/2 and a terminal sample with reward 2,
    both with next state 0. *)
Definition batch : list (@Agent.transition Qc nat) :=
  [ (0%nat, 1, q 1 2, 0%nat, q 1 1);
    (1%nat, 0, q 2 1, 0%nat, q 0 1) ].

(** An agent that no longer explores; in state 0 its online network prefers
    action 0. *)
Definition greedy : agent :=
  Agent.set_epsilon (q 0 1)
    (Agent.set_online_network
       (table [[q 5 1; q 1 1; q 2 1]; [q 0 1; q 0 1; q 0 1]])
       (start 2 2 2)).

(** An agent that always explores. *)
Definition exploring : agent := start 2 2 2.

(** The end of an episode, and an episode of two steps with rewards 1
    and 2. *)
Definition episode_end : @Agent.call Qc nat :=
  Agent.Memorize 0%nat 0 (q 0 1) 0%nat (q 0 1).

Definition short_episode : list (@Agent.call Qc nat) :=
  [ Agent.Memorize 0%nat 1 (q 1 1) 1%nat (q 1 1);
    Agent.Memorize 1%nat 0 (q 2 1) 0%nat (q 0 1) ].

(** Three recorded transitions, for a buffer of capacity 2. *)
Definition three_records : list (@Agent.call Qc nat) :=
  [ Agent.Memorize 0%nat 0 (q 1 1) 1%nat (q 1 1);
    Agent.Memorize 1%nat 1 (q 2 1) 0%nat (q 1 1);
    Agent.Memorize 0%nat 2 (q 3 1) 1%nat (q 1 1) ].

(** A run of 100 episodes: 60 in which the agent beat the market, then 40 in
    which it did not. *)
Definition diffs : list Qc := replicate 60 (q 1 10) ++ replicate 40 (q (-1) 10).
Definition navs : list Qc := replicate 100 (q 11 10).

(** A store with one table, whose labels have two levels. *)
Definition two_level : @Frame.DataFrame Z :=
  {| Frame.columns :=
       [Frame.Levels ["a"%string; ""%string];
        Frame.Levels ["b"%string; "c"%string]];
     Frame.index := [0; 1; 2; 3];
     Frame.data := [[1; 2; 3; 4]; [10; 20; 30; 40]] |}.

Definition store : gmap nat (@Frame.DataFrame Z) := {[ 7%nat := two_level ]}.

(** [value > 2] on a column *)
Definition above_two (series : list (Z * Z)) : list bool :=
  map (λ p, 2 <? p.2) series.

End Demo.

(** ** Vocabulary of the properties *)

Section AgentVocabulary.

Context {R : Type} `{Num R} {obs weights internals : Type}.

Abbreviation agent := (@Agent.DDQNAgent R obs weights internals).

(** A learning update has happened between [self] and [self']: a loss was
    recorded. *)
Definition learned (self self' : agent) : Prop :=
  ∃ loss, Agent.losses self' = Agent.losses self ++ [loss].

(** A recording call whose [not_done] is false ends an episode. *)
Definition terminal (c : @Agent.call R obs) : bool :=
  match c with
  | Agent.Memorize _ _ _ _ nd => negb (truthy nd)
  | _ => false
  end.

Definition terminal_calls (calls : list (@Agent.call R obs)) : nat :=
  length (List.filter terminal calls).

(** One episode end, on the pair of [epsilon] and [episodes]. *)
Definition decay (steps : Z) (linear exponential : R) (st : R * Z) : R * Z :=
  (if st.2 <? steps then (st.1 - linear)%py else (st.1 * exponential)%py,
   st.2 + 1).

Definition schedule_of (self : agent) : R * Z → R * Z :=
  decay (Agent.epsilon_decay_steps self) (Agent.epsilon_decay self)
    (Agent.epsilon_exponential_decay self).

(** The recording calls of the steps of an episode that continue. *)
Definition continuing (one : R) (steps : list (obs * Z * R * obs))
    : list (@Agent.call R obs) :=
  map (λ t, Agent.Memorize t.1.1.1 t.1.1.2 t.1.2 t.2 one) steps.

Definition reward_of (t : obs * Z * R * obs) : R := t.1.2.

(** The transitions a sequence of calls records, in arrival order. *)
Definition recorded (calls : list (@Agent.call R obs))
    : list (@Agent.transition R obs) :=
  omap (λ c, match c with
             | Agent.Memorize s a r s' nd => Some (s, a, r, s', nd)
             | _ => None
             end) calls.

End AgentVocabulary.

(** [within tol x y]: the binary64 values [x] and [y] differ by less than
    [tol]. *)
Definition within (tol x y : float) : Prop :=
  PrimFloat.ltb (PrimFloat.abs (PrimFloat.sub x y)) tol = true.

(** An agent constructed with the exploration parameters of the notebook
    (1.0, 0.01, 250, 0.99) has, after any calls of which [n] end an episode,
    an exploration probability that satisfies [P]. *)
Definition epsilon_after {R : Type} `{Num R} (n : nat) (P : R → Prop) : Prop :=
  ∀ (obs weights internals : Type)
    (forward : @Agent.network weights internals → obs → list R)
    (train_on_batch :
       @Agent.network weights internals → list obs → list (list R)
       → @Agent.network weights internals * R)
    (build_model :
       Z → Z → list Z → R → R → bool → @Agent.network weights internals)
    (state_dim num_actions : Z) (learning_rate gamma : R)
    (replay_capacity : Z) (architecture : list Z) (l2_reg : R)
    (tau batch_size : Z)
    (self : @Agent.DDQNAgent R obs weights internals)
    (calls : list Agent.call),
    Agent.__init__ build_model state_dim num_actions learning_rate gamma
      Notebook.epsilon_start Notebook.epsilon_end Notebook.epsilon_decay_steps
      Notebook.epsilon_exponential_decay replay_capacity architecture l2_reg
      tau batch_size = Ok self →
    terminal_calls calls = n →
    P (Agent.epsilon (Agent.run forward train_on_batch self calls)).

Definition sumZ (l : list Z) : Z := foldr Z.add 0 l.

(** The last [w] items of [l]. *)
Definition lastn {A : Type} (w : nat) (l : list A) : list A :=
  drop (length l - w) l.

Abbreviation chars := list_ascii_of_string.
Abbreviation blank := (Forall (λ c, Frame.isspace c = true)).

(** [new] is [s] without its surrounding blanks. *)
Definition stripped (s new : string) : Prop :=
  ∃ pre post,
    chars s = pre ++ chars new ++ post
    ∧ blank pre ∧ blank post
    ∧ (∀ c, head (chars new) = Some c → Frame.isspace c = false)
    ∧ (∀ c, last (chars new) = Some c → Frame.isspace c = false).

(** ** Further vocabulary *)

Section CallVocabulary.

Context {R : Type} `{Num R} {obs : Type}.

(** A call of [epsilon_greedy_policy]. *)
Definition acting (c : @Agent.call R obs) : bool :=
  match c with
  | Agent.Act _ _ _ => true
  | _ => false
  end.

Definition act_calls (calls : list (@Agent.call R obs)) : nat :=
  length (List.filter acting calls).

(** The rewards of the recorded transitions that continue an episode, in
    arrival order. *)
Definition continuing_rewards (calls : list (@Agent.call R obs)) : list R :=
  omap (λ c, match c with
             | Agent.Memorize _ _ r _ nd => if truthy nd then Some r else None
             | _ => None
             end) calls.

End CallVocabulary.

(** The exploration probability of the notebook after [n] episode ends, in
    closed form: 250 equal steps from 1 down to 1/100, then a factor 99/100
    per episode. *)
Definition schedule (n : nat) : Qc :=
  if (n <=? 250)%nat
  then (1 - Q2Qc (inject_Z (Z.of_nat n)) * Q2Qc (99 # 25000))%Qc
  else (Q2Qc (1 # 100) * Q2Qc (99 # 100) ^ (n - 250))%Qc.

Definition sumQc (l : list Qc) : Qc := foldr Qcplus (Q2Qc 0) l.

Section ShapeVocabulary.

Context {R : Type} `{Num R} {obs weights internals : Type}.
Context (forward : @Agent.network weights internals → obs → list R).

(** Both networks give [width] action-values for the states of the
    transition, and its action is an index into such a row. *)
Definition well_shaped (self : @Agent.DDQNAgent R obs weights internals)
    (width : nat) (t : @Agent.transition R obs) : Prop :=
  let '(s, a, _, s', _) := t in
  length (forward (Agent.online_network self) s) = width
  ∧ length (forward (Agent.online_network self) s') = width
  ∧ length (forward (Agent.target_network self) s') = width
  ∧ - Z.of_nat width ≤ a < Z.of_nat width.

End ShapeVocabulary.

(** A string that neither starts nor ends with a blank (the empty string
    included). *)
Definition clean (s : string) : Prop :=
  (∀ c, head (chars s) = Some c → Frame.isspace c = false)
  ∧ (∀ c, last (chars s) = Some c → Frame.isspace c = false).


(** The characters of a string with one space between neighbours. *)
Fixpoint spaced (l : list ascii) : list ascii :=
  match l with
  | [] => []
  | [c] => [c]
  | c :: l' => c :: " "%char :: spaced l'
  end.

Section ProgressVocabulary.

Context {R : Type} `{Num R}.

(** The share of wins that the training loop prints every tenth episode:
    [np.sum([s > 0 for s in diffs[-100:]]) / min(len(diffs), 100)]. *)
Definition win_ratio (diffs : list R) : R :=
  (of_Z (Z.of_nat (length (List.filter Results.positive (lastn 100 diffs))))
   / of_Z (Z.of_nat (length diffs `min` 100)))%py.

End ProgressVocabulary.

(** ** The training loop of the notebook *)

Module Driver.

Section Loop.

Context {R : Type} `{Num R} {obs weights internals env : Type}.
Context (forward : @Agent.network weights internals → obs → list R).
Context (train_on_batch :
  @Agent.network weights internals → list obs → list (list R)
  → @Agent.network weights internals * R).

(** The trading environment, which the notebook takes from [gym]:
    [reset()], [step(action)], which gives the next state, the reward and
    [done], and the last row of [env.simulator.result()], of which the loop
    reads [nav], [strategy_return] and [market_nav]. *)
Context (reset : env → env * obs).
Context (env_step : env → Z → env * (obs * R * bool)).
Context (final : env → R * R * R).

(** The random values used in step [j] of episode [k]: those of
    [np.random.rand()], [np.random.choice] and [random.sample]. *)
Context (draws : nat → nat → R * Z * list nat).

Abbreviation agent := (@Agent.DDQNAgent R obs weights internals).

(** [for episode_step in range(max_episode_steps): ...], from step [j] on
    with [n] steps left.  The outcome tells whether the loop was left by
    [break]; an exception of the agent ends it. *)
Fixpoint episode_steps (n : nat) (k j : nat) (e : env) (this_state : obs)
    (ddqn : agent) : result bool * (env * agent) :=
  match n with
  | O => (Ok false, (e, ddqn))
  | S n' =>
      let '(u, c, rnd) := draws k j in
      match Agent.epsilon_greedy_policy forward this_state u c ddqn with
      | (Raise x, ddqn) => (Raise x, (e, ddqn))
      | (Ok action, ddqn) =>
          let '(e, (next_state, reward, done)) := env_step e action in
          let ddqn :=
            Agent.memorize_transition this_state action reward next_state
              (if done then of_Z 0 else of_Z 1) ddqn in
          let '(r, ddqn) :=
            if Agent.train ddqn
            then Agent.experience_replay forward train_on_batch rnd ddqn
            else (Ok tt, ddqn) in
          match r with
          | Raise x => (Raise x, (e, ddqn))
          | Ok _ =>
              if done then (Ok true, (e, ddqn))
              else episode_steps n' k (S j) e next_state ddqn
          end
      end
  end.

(** The variables of the loop. *)
Record locals : Type := {
  ddqn : agent;
  trading_environment : env;
  navs : list R;
  market_navs : list R;
  diffs : list R;
  episode : nat
}.

(** [len(diffs) > 25 and all([r > 0 for r in diffs[-25:]])] *)
Definition stop (diffs : list R) : bool :=
  (25 <? length diffs)%nat && forallb Results.positive (lastn 25 diffs).

(** [for episode in range(first, first + n): ...].  The progress line that
    is printed every tenth episode changes no variable and is left out. *)
Fixpoint episodes_from (max_episode_steps : nat) (n : nat) (first : nat)
    (st : locals) : result unit * locals :=
  match n with
  | O => (Ok tt, st)
  | S n' =>
      let '(e, this_state) := reset (trading_environment st) in
      match episode_steps max_episode_steps first 0 e this_state (ddqn st) with
      | (Raise x, (e, a)) =>
          (Raise x,
           {| ddqn := a; trading_environment := e; navs := navs st;
              market_navs := market_navs st; diffs := diffs st;
              episode := first |})
      | (Ok _, (e, a)) =>
          let '(final_nav, strategy_return, market_nav) := final e in
          let nav := (final_nav * (of_Z 1 + strategy_return))%py in
          let diff := (nav - market_nav)%py in
          let st :=
            {| ddqn := a; trading_environment := e;
               navs := navs st ++ [nav];
               market_navs := market_navs st ++ [market_nav];
               diffs := diffs st ++ [diff];
               episode := first |} in
          if stop (diffs st) then (Ok tt, st)
          else episodes_from max_episode_steps n' (S first) st
      end
  end.

(** The cell: the lists start empty and [episode] runs from 1.  Before the
    first episode the variable [episode] is not bound; the record holds 0
    then. *)
Definition training (max_episodes max_episode_steps : nat) (a : agent)
    (e : env) : result unit * locals :=
  episodes_from max_episode_steps max_episodes 1
    {| ddqn := a; trading_environment := e; navs := []; market_navs := [];
       diffs := []; episode := 0 |}.

End Loop.

End Driver.

(** ** Further inputs for the examples *)

Module Samples.

(** An agent in evaluation mode: [Demo.start 2 2 2] with [train] off. *)
Definition evaluating : Demo.agent :=
  {| Agent.state_dim := 2;
     Agent.num_actions := 3;
     Agent.experience := Deque.empty 2;
     Agent.learning_rate := Demo.q 1 10000;
     Agent.gamma := Demo.q 99 100;
     Agent.architecture := [4];
     Agent.l2_reg := Demo.q 1 1000000;
     Agent.online_network := Demo.zeros;
     Agent.target_network := Demo.zeros;
     Agent.epsilon := Demo.q 1 1;
     Agent.epsilon_decay_steps := 250;
     Agent.epsilon_decay := ((Demo.q 1 1 - Demo.q 1 100) / of_Z 250)%py;
     Agent.epsilon_exponential_decay := Demo.q 99 100;
     Agent.epsilon_history := [];
     Agent.total_steps := 0;
     Agent.train_steps := 0;
     Agent.episodes := 0;
     Agent.episode_length := 0;
     Agent.train_episodes := 0;
     Agent.steps_per_episode := [];
     Agent.episode_reward := of_Z 0;
     Agent.rewards_history := [];
     Agent.batch_size := 2;
     Agent.tau := 2;
     Agent.losses := [];
     Agent.idx := Agent.tf_range 2;
     Agent.train := false |}.

(** A small environment: its state counts the steps of the episode, the
    observation alternates between 0 and 1, every step pays 1, and the
    third step ends the episode. *)
Definition reset (e : nat) : nat * nat := (0%nat, 0%nat).

Definition env_step (e : nat) (action : Z) : nat * (nat * Qc * bool) :=
  (S e, ((S e mod 2)%nat, Demo.q 1 1, (3 <=? S e)%nat)).

Definition final (e : nat) : Qc * Qc * Qc :=
  (Demo.q 1 1, Demo.q 1 10, Demo.q 1 1).

Definition draws (k j : nat) : Qc * Z * list nat :=
  (Demo.q 1 2, 1, [0%nat]).

End Samples.

(** * Properties *)

(** ** Auxiliary facts *)

Lemma lookup_map {A B : Type} (f : A → B) (l : list A) (i : nat) :
  map f l !! i = f <$> l !! i.
Proof. change (map f l) with (f <$> l). apply list_lookup_fmap. Qed.

Section ResultFacts.

Context {A B : Type}.

Lemma mapM_ok_lookup (f : A → result B) (l : list A) (ys : list B) (i : nat)
    (x : A) :
  mapM f l = Ok ys → l !! i = Some x →
  ∃ y, ys !! i = Some y ∧ f x = Ok y.
Proof.
  revert ys i. induction l as [| a l IH]; intros ys i Hm Hl; [done|].
  simpl in Hm. destruct (f a) as [y |] eqn:Hfa; [|done]. simpl in Hm.
  destruct (mapM f l) as [ys' |] eqn:Hml; [|done]. simpl in Hm.
  injection Hm as <-.
  destruct i as [| i]; simpl in *.
  - injection Hl as <-. eauto.
  - by apply IH.
Qed.

Lemma mapM_ok_length (f : A → result B) (l : list A) (ys : list B) :
  mapM f l = Ok ys → length ys = length l.
Proof.
  revert ys. induction l as [| a l IH]; intros ys Hm; simpl in Hm.
  - by injection Hm as <-.
  - destruct (f a) as [y |]; [|done]. simpl in Hm.
    destruct (mapM f l) as [ys' |]; [|done]. simpl in Hm.
    injection Hm as <-. simpl. f_equal. by apply IH.
Qed.

Lemma mapM_total (f : A → result B) (l : list A) :
  Forall (λ x, ∃ y, f x = Ok y) l → ∃ ys, mapM f l = Ok ys.
Proof.
  induction 1 as [| a l [y Hy] _ [ys Hys]]; simpl; [eauto|].
  rewrite Hy. simpl. rewrite Hys. simpl. eauto.
Qed.

End ResultFacts.

Section ArgmaxFacts.

Context {R : Type} `{Num R}.

Lemma argmax_from_bound (l : list R) (best i : nat) (bestv : R) :
  (best < i)%nat → (argmax_from best bestv i l < i + length l)%nat.
Proof.
  revert best i bestv. induction l as [| x l IH]; intros best i bestv Hlt;
    simpl; [lia|].
  destruct (bestv <? x)%py.
  - specialize (IH i (S i) x). lia.
  - specialize (IH best (S i) bestv). lia.
Qed.

Lemma argmax_bound (l : list R) (b : nat) :
  argmax l = Ok b → (b < length l)%nat.
Proof.
  destruct l as [| x l]; [done|]. simpl. intros [= <-].
  pose proof (argmax_from_bound l 0 1 x). lia.
Qed.

Lemma argmax_total (l : list R) :
  l ≠ [] → ∃ b, argmax l = Ok b.
Proof. destruct l; [done|]. simpl. eauto. Qed.

End ArgmaxFacts.

(** Over the rationals [argmax] returns the first position of a largest
    entry. *)
Lemma argmax_from_spec (l pre : list Qc) (best : nat) (bestv : Qc) :
  pre !! best = Some bestv →
  (∀ j w, pre !! j = Some w → (w <= bestv)%Qc) →
  (∀ j w, (j < best)%nat → pre !! j = Some w → (w < bestv)%Qc) →
  let b := argmax_from best bestv (length pre) l in
  ∃ v, (pre ++ l) !! b = Some v
       ∧ (∀ j w, (pre ++ l) !! j = Some w → (w <= v)%Qc)
       ∧ (∀ j w, (j < b)%nat → (pre ++ l) !! j = Some w → (w < v)%Qc).
Proof.
  revert pre best bestv.
  induction l as [| x l IH]; intros pre best bestv Hb Hmax Hfirst; simpl.
  - rewrite app_nil_r. eauto.
  - replace (pre ++ x :: l) with ((pre ++ [x]) ++ l)
      by (by rewrite <- app_assoc).
    replace (S (length pre)) with (length (pre ++ [x]))
      by (rewrite length_app; simpl; lia).
    unfold ltb, Qc_Num.
    destruct (Qle_bool x bestv) eqn:Hle; simpl.
    + apply Qle_bool_iff in Hle.
      apply IH.
      * by apply lookup_app_l_Some.
      * intros j w Hj. apply lookup_app_Some in Hj as [Hj | [_ Hj]]; [eauto|].
        apply list_lookup_singleton_Some in Hj as [_ <-]. done.
      * intros j w Hlt Hj.
        apply lookup_app_Some in Hj as [Hj | [Hge _]]; [eauto|].
        apply lookup_lt_Some in Hb. lia.
    + assert (Hlt : (bestv < x)%Qc).
      { apply Qnot_le_lt. intros Hc. apply Qle_bool_iff in Hc. congruence. }
      apply IH.
      * rewrite lookup_app_r by lia. by rewrite Nat.sub_diag.
      * intros j w Hj. apply lookup_app_Some in Hj as [Hj | [_ Hj]].
        -- apply Qclt_le_weak. eapply Qcle_lt_trans; [by eapply Hmax | done].
        -- apply list_lookup_singleton_Some in Hj as [_ <-]. apply Qcle_refl.
      * intros j w Hj Hl.
        apply lookup_app_Some in Hl as [Hl | [Hge _]]; [|lia].
        eapply Qcle_lt_trans; [by eapply Hmax | done].
Qed.

Lemma argmax_spec (l : list Qc) (b : nat) :
  argmax l = Ok b →
  ∃ v, l !! b = Some v
       ∧ (∀ j w, l !! j = Some w → (w <= v)%Qc)
       ∧ (∀ j w, (j < b)%nat → l !! j = Some w → (w < v)%Qc).
Proof.
  destruct l as [| x l]; [done|]. simpl. intros [= <-].
  apply (argmax_from_spec l [x] 0 x); [done | |].
  - intros j w Hj. apply list_lookup_singleton_Some in Hj as [_ <-].
    apply Qcle_refl.
  - intros j w Hj. lia.
Qed.

Section AgentFacts.

Context {R : Type} `{Num R} {obs weights internals : Type}.
Context (forward : @Agent.network weights internals → obs → list R).
Context (train_on_batch :
  @Agent.network weights internals → list obs → list (list R)
  → @Agent.network weights internals * R).

Abbreviation agent := (@Agent.DDQNAgent R obs weights internals).
Abbreviation experience_replay := (Agent.experience_replay forward train_on_batch).
Abbreviation epsilon_greedy_policy := (Agent.epsilon_greedy_policy forward).
Abbreviation step := (Agent.step forward train_on_batch).
Abbreviation run := (Agent.run forward train_on_batch).

Lemma run_app (self : agent) (cs1 cs2 : list Agent.call) :
  run self (cs1 ++ cs2) = run (run self cs1) cs2.
Proof. unfold Agent.run. apply fold_left_app. Qed.

Lemma run_snoc (self : agent) (cs : list Agent.call) (c : Agent.call) :
  run self (cs ++ [c]) = step (run self cs) c.
Proof. by rewrite run_app. Qed.

Lemma not_learned_same_losses (self self' : agent) :
  Agent.losses self' = Agent.losses self → ¬ learned self self'.
Proof.
  intros Heq [loss Hl]. rewrite Heq in Hl.
  apply (f_equal length) in Hl. rewrite length_app in Hl. simpl in Hl. lia.
Qed.

(** What [experience_replay] leaves alone, whatever its outcome. *)
Lemma experience_replay_frame (rnd : list nat) (self : agent) :
  let self' := (experience_replay rnd self).2 in
  Agent.experience self' = Agent.experience self
  ∧ Agent.total_steps self' = Agent.total_steps self
  ∧ Agent.tau self' = Agent.tau self
  ∧ Agent.batch_size self' = Agent.batch_size self
  ∧ Agent.idx self' = Agent.idx self
  ∧ Agent.epsilon self' = Agent.epsilon self
  ∧ Agent.episodes self' = Agent.episodes self
  ∧ Agent.train self' = Agent.train self.
Proof.
  unfold Agent.experience_replay.
  repeat (match goal with
          | |- context [if ?b then _ else _] => destruct b
          | |- context [match ?x with _ => _ end] => destruct x
          end; try (by destruct self)).
Qed.

(** What [epsilon_greedy_policy] leaves alone. *)
Lemma epsilon_greedy_policy_frame (state : obs) (u : R) (c : Z) (self : agent) :
  let self' := (epsilon_greedy_policy state u c self).2 in
  self' = Agent.set_total_steps (Agent.total_steps self + 1) self.
Proof.
  unfold Agent.epsilon_greedy_policy.
  repeat (match goal with
          | |- context [if ?b then _ else _] => destruct b
          | |- context [match ?x with _ => _ end] => destruct x
          end; try done).
Qed.

(** What [memorize_transition] leaves alone. *)
Lemma memorize_transition_frame (s : obs) (a : Z) (r : R) (s' : obs) (nd : R)
    (self : agent) :
  let self' := Agent.memorize_transition s a r s' nd self in
  Agent.online_network self' = Agent.online_network self
  ∧ Agent.target_network self' = Agent.target_network self
  ∧ Agent.losses self' = Agent.losses self
  ∧ Agent.total_steps self' = Agent.total_steps self
  ∧ Agent.tau self' = Agent.tau self
  ∧ Agent.batch_size self' = Agent.batch_size self
  ∧ Agent.idx self' = Agent.idx self
  ∧ Agent.train self' = Agent.train self
  ∧ Agent.epsilon_decay_steps self' = Agent.epsilon_decay_steps self
  ∧ Agent.epsilon_decay self' = Agent.epsilon_decay self
  ∧ Agent.epsilon_exponential_decay self' =
      Agent.epsilon_exponential_decay self
  ∧ Agent.experience self' =
      Deque.append (Agent.experience self) (s, a, r, s', nd).
Proof.
  unfold Agent.memorize_transition. destruct self; simpl.
  repeat (match goal with
          | |- context [if ?b then _ else _] => destruct b
          end; simpl); done.
Qed.

(** C5.  Experience replay on a buffer that holds fewer transitions than
    [batch_size] returns normally and changes nothing of the agent: the
    online weights, the target weights and the losses are as before. *)
Theorem experience_replay_below_batch_size (rnd : list nat) (self : agent) :
  Deque.len (Agent.experience self) < Agent.batch_size self →
  experience_replay rnd self = (Ok tt, self)
  ∧ Agent.online_network (experience_replay rnd self).2 =
      Agent.online_network self
  ∧ Agent.target_network (experience_replay rnd self).2 =
      Agent.target_network self
  ∧ Agent.losses (experience_replay rnd self).2 = Agent.losses self.
Proof.
  intros Hlt.
  assert (Hnoop : experience_replay rnd self = (Ok tt, self)).
  { unfold Agent.experience_replay.
    destruct (Z.gtb_spec (Agent.batch_size self)
                (Deque.len (Agent.experience self))); [done | lia]. }
  by rewrite Hnoop.
Qed.

(** C3.  One call on the agent, of any kind.  If it recorded a learning
    update while [total_steps] was divisible by [tau], the target weights
    after the call are the online weights after the call.  In every other
    case the target network after the call is the one before it; in
    particular a learning update off the cadence replaces the online network
    by the trained one and leaves the target alone. *)
Theorem target_sync_cadence (self : agent) (c : Agent.call) :
  let self' := step self c in
  let on_cadence :=
    Agent.tau self ≠ 0 ∧ Agent.total_steps self mod Agent.tau self = 0 in
  (learned self self' ∧ on_cadence →
     Agent.get_weights (Agent.target_network self') =
       Agent.get_weights (Agent.online_network self'))
  ∧ (¬ (learned self self' ∧ on_cadence) →
       Agent.target_network self' = Agent.target_network self)
  ∧ (learned self self' →
       ∃ states q_values,
         Agent.online_network self' =
           (train_on_batch (Agent.online_network self) states q_values).1).
Proof.
  destruct c as [state u c | s a r s' nd | rnd]; simpl.
  - pose proof (epsilon_greedy_policy_frame state u c self) as Hf.
    simpl in Hf. rewrite Hf.
    assert (Hn : ¬ learned self
                   (Agent.set_total_steps (Agent.total_steps self + 1) self)).
    { apply not_learned_same_losses. by destruct self. }
    split_and!; [tauto | by destruct self | tauto].
  - destruct (memorize_transition_frame s a r s' nd self)
      as (Hon & Htg & Hlo & _).
    assert (Hn : ¬ learned self (Agent.memorize_transition s a r s' nd self)).
    { by apply not_learned_same_losses. }
    split_and!; [tauto | done | tauto].
  - unfold Agent.experience_replay.
    repeat (match goal with
            | |- context [if ?b then _ else _] => destruct b eqn:?
            | |- context [match ?x with _ => _ end] => destruct x eqn:?
            end;
            try (simpl;
                 split_and!;
                 [ intros [Hl _]; by apply not_learned_same_losses in Hl
                 | done
                 | intros Hl; by apply not_learned_same_losses in Hl ])).
    all: destruct self; simpl in *.
    all: repeat match goal with
                | Hb : (_ =? _) = true |- _ => apply Z.eqb_eq in Hb
                | Hb : (_ =? _) = false |- _ => apply Z.eqb_neq in Hb
                end.
    all: assert (Htrained : ∃ states q_values,
                   n = (train_on_batch online_network states q_values).1)
           by (do 2 eexists;
               match goal with
               | Ht : train_on_batch _ _ _ = _ |- _ => by rewrite Ht
               end).
    + (* tau = 0: the update is recorded, then the modulus raises *)
      split_and!; [ intros (_ & Ht & _); lia | done | done ].
    + (* on the cadence *)
      split_and!; [ done | | done ].
      intros Hn. exfalso. apply Hn. split; [by eexists | done].
    + (* off the cadence *)
      split_and!; [ intros (_ & _ & Hm); lia | done | done ].
Qed.

End AgentFacts.

(** ** The exploration schedule *)

Section ScheduleFacts.

Context {R : Type} `{Num R} {obs weights internals : Type}.
Context (forward : @Agent.network weights internals → obs → list R).
Context (train_on_batch :
  @Agent.network weights internals → list obs → list (list R)
  → @Agent.network weights internals * R).

Abbreviation agent := (@Agent.DDQNAgent R obs weights internals).
Abbreviation run := (Agent.run forward train_on_batch).
Abbreviation step := (Agent.step forward train_on_batch).

Lemma step_schedule (self : agent) (c : Agent.call) :
  Agent.train self = true →
  Agent.train (step self c) = true
  ∧ schedule_of (step self c) = schedule_of self
  ∧ (Agent.epsilon (step self c), Agent.episodes (step self c)) =
      (if terminal c then schedule_of self else id)
        (Agent.epsilon self, Agent.episodes self).
Proof.
  intros Htrain. destruct c as [state u c | s a r s' nd | rnd]; simpl.
  - pose proof (epsilon_greedy_policy_frame forward state u c self) as Hf.
    simpl in Hf. rewrite Hf. by destruct self.
  - unfold Agent.memorize_transition, schedule_of, decay.
    destruct self; simpl in *. subst.
    destruct (truthy nd); simpl; [done|].
    by destruct (_ <? _).
  - destruct (experience_replay_frame forward train_on_batch rnd self)
      as (_ & _ & _ & _ & _ & He & Hn & Ht).
    rewrite He, Hn, Ht. split; [done|]. split; [|done].
    unfold schedule_of, Agent.experience_replay.
    repeat (match goal with
            | |- context [if ?b then _ else _] => destruct b
            | |- context [match ?x with _ => _ end] => destruct x
            end; try (by destruct self)).
Qed.

(** The exploration probability depends on the calls only through the number
    of episode ends among them. *)
Lemma run_schedule (self : agent) (calls : list Agent.call) :
  Agent.train self = true →
  Agent.train (run self calls) = true
  ∧ schedule_of (run self calls) = schedule_of self
  ∧ (Agent.epsilon (run self calls), Agent.episodes (run self calls)) =
      Nat.iter (terminal_calls calls) (schedule_of self)
        (Agent.epsilon self, Agent.episodes self).
Proof.
  intros Htrain. induction calls as [| c calls IH] using rev_ind; [done|].
  destruct IH as (IHt & IHs & IHe).
  rewrite (run_snoc forward train_on_batch).
  destruct (step_schedule (run self calls) c IHt) as (Ht & Hs & He).
  split; [done|]. split; [congruence|].
  rewrite He, IHs, IHe. unfold terminal_calls.
  rewrite List.filter_app, length_app. simpl.
  destruct (terminal c); simpl.
  - by rewrite Nat.add_1_r.
  - by rewrite Nat.add_0_r.
Qed.

End ScheduleFacts.

Lemma epsilon_after_iter {R : Type} `{Num R} (n : nat) (P : R → Prop) :
  P (Nat.iter n
       (decay Notebook.epsilon_decay_steps
          ((Notebook.epsilon_start - Notebook.epsilon_end)
           / of_Z Notebook.epsilon_decay_steps)%py
          Notebook.epsilon_exponential_decay)
       (Notebook.epsilon_start, 0)).1 →
  epsilon_after n P.
Proof.
  intros HP obs weights internals forward train_on_batch build_model
    sd na lr g cap arch l2 tau bs self calls Hinit Hn.
  unfold Agent.__init__ in Hinit.
  destruct (cap <? 0); [done|].
  destruct (Notebook.epsilon_decay_steps =? 0); [done|].
  injection Hinit as <-.
  match goal with
  | |- context [Agent.run _ _ ?a calls] => set (self0 := a)
  end.
  destruct (run_schedule forward train_on_batch self0 calls)
    as (_ & _ & He); [done|].
  apply (f_equal fst) in He. simpl in He. rewrite He, Hn. exact HP.
Qed.

(** The decimal literals of the notebook, in binary64. *)
Example notebook_literals :
  (Notebook.epsilon_start : float) = 1%float
  ∧ (Notebook.epsilon_end : float) = 0.01%float
  ∧ (Notebook.epsilon_exponential_decay : float) = 0.99%float.
Proof. vm_compute. auto. Qed.

(** In binary64 the 250 subtractions do not land on the double nearest to
    0.01; the difference is a few units in the last place. *)
Example binary64_epsilon_250 :
  let e :=
    (Nat.iter 250
       (decay Notebook.epsilon_decay_steps
          ((Notebook.epsilon_start - Notebook.epsilon_end)
           / of_Z Notebook.epsilon_decay_steps)%py
          Notebook.epsilon_exponential_decay)
       ((Notebook.epsilon_start : float), 0)).1 in
  PrimFloat.eqb e 0.01 = false ∧ within 4e-15 e 0.01.
Proof. vm_compute. auto. Qed.

(** C2.  Epsilon after 250 and after 251 episode ends, for an agent
    constructed with epsilon_start 1.0, epsilon_end 0.01, 250 decay steps and
    exponential decay 0.99 (training mode is what the constructor sets).  In
    exact arithmetic the values are 1/100 and 99/10000.  In binary64, the
    arithmetic of the interpreter, they are within 1e-14 of 0.01 and of
    0.0099. *)
Theorem epsilon_schedule :
  epsilon_after (R := Qc) 250 (λ e, e = Q2Qc (1 # 100))
  ∧ epsilon_after (R := Qc) 251 (λ e, e = Q2Qc (99 # 10000))
  ∧ epsilon_after (R := float) 250 (λ e, within 1e-14 e 0.01)
  ∧ epsilon_after (R := float) 251 (λ e, within 1e-14 e 0.0099).
Proof.
  split_and!; apply epsilon_after_iter.
  - apply Qc_is_canon. vm_compute. reflexivity.
  - apply Qc_is_canon. vm_compute. reflexivity.
  - vm_compute. reflexivity.
  - vm_compute. reflexivity.
Qed.

(** ** Episode bookkeeping *)

Section EpisodeFacts.

Context {R : Type} `{Num R} {obs weights internals : Type}.
Context (forward : @Agent.network weights internals → obs → list R).
Context (train_on_batch :
  @Agent.network weights internals → list obs → list (list R)
  → @Agent.network weights internals * R).

Abbreviation agent := (@Agent.DDQNAgent R obs weights internals).
Abbreviation run := (Agent.run forward train_on_batch).

Lemma run_continuing (one : R) (steps : list (obs * Z * R * obs))
    (self : agent) :
  truthy one = true →
  let self' := run self (continuing one steps) in
  Agent.episode_reward self' =
    fold_left add (map reward_of steps) (Agent.episode_reward self)
  ∧ Agent.episode_length self' =
      Agent.episode_length self + Z.of_nat (length steps)
  ∧ Agent.rewards_history self' = Agent.rewards_history self
  ∧ Agent.steps_per_episode self' = Agent.steps_per_episode self.
Proof.
  intros Hone. revert self.
  induction steps as [| [[[s a] r] s'] steps IH]; intros self; simpl.
  - split_and!; [done | lia | done | done].
  - destruct (IH (Agent.memorize_transition s a r s' one self))
      as (Hr & Hl & Hh & Hs).
    unfold continuing, Agent.run in *. simpl in *.
    rewrite Hr, Hl, Hh, Hs.
    unfold Agent.memorize_transition. rewrite Hone.
    destruct self; simpl. split_and!; [done | lia | done | done].
Qed.

(** C6 (what the code does).  After [n] recording calls with a true
    [not_done] and rewards [r_1 .. r_n], a recording call with a false
    [not_done] and reward [r] appends to [rewards_history] the sum of
    [r_1 .. r_n] added to the running reward, without [r], appends to
    [steps_per_episode] the running length plus [n], without the last step,
    and resets the running reward and length to zero. *)
Theorem episode_end_bookkeeping (one zero : R)
    (steps : list (obs * Z * R * obs)) (s : obs) (a : Z) (r : R) (s' : obs)
    (self : agent) :
  truthy one = true →
  truthy zero = false →
  let self' :=
    run self (continuing one steps ++ [Agent.Memorize s a r s' zero]) in
  Agent.rewards_history self' =
    Agent.rewards_history self
      ++ [fold_left add (map reward_of steps) (Agent.episode_reward self)]
  ∧ Agent.steps_per_episode self' =
      Agent.steps_per_episode self
        ++ [Agent.episode_length self + Z.of_nat (length steps)]
  ∧ Agent.episode_reward self' = of_Z 0
  ∧ Agent.episode_length self' = 0.
Proof.
  intros Hone Hzero. simpl.
  rewrite (run_snoc forward train_on_batch).
  destruct (run_continuing one steps self Hone) as (Hr & Hl & Hh & Hs).
  simpl. unfold Agent.memorize_transition. rewrite Hzero.
  destruct (Agent.run forward train_on_batch self (continuing one steps));
    simpl in *.
  subst.
  repeat (match goal with
          | |- context [if ?b then _ else _] => destruct b
          end; simpl); done.
Qed.

End EpisodeFacts.

(** ** Action selection *)

Section PolicyFacts.

Context {obs weights internals : Type}.
Context (forward : @Agent.network weights internals → obs → list Qc).

Abbreviation agent := (@Agent.DDQNAgent Qc obs weights internals).
Abbreviation epsilon_greedy_policy := (Agent.epsilon_greedy_policy forward).

(** C7 (amended).  With epsilon 1 and a non-empty action space, every draw
    [u] of [np.random.rand()] in [0, 1) selects the exploring branch: the
    action is the value [c] that [np.random.choice(num_actions)] drew, and
    the online network is not consulted.  With epsilon 0, every draw [u]
    above 0 selects the greedy branch: the action is the position [argmax]
    gives for the online network's row of the state (the first position of
    its largest entry), whatever [u] and [c] are. *)
Theorem epsilon_greedy_boundaries (self : agent) (state : obs) (u : Qc)
    (c : Z) :
  (0 <= u)%Qc → (u < 1)%Qc →
  (Agent.epsilon self = 1%Qc → 0 < Agent.num_actions self →
     (epsilon_greedy_policy state u c self).1 = Ok c)
  ∧ (Agent.epsilon self = 0%Qc → (0 < u)%Qc →
       ∀ b, argmax (forward (Agent.online_network self) state) = Ok b →
         (epsilon_greedy_policy state u c self).1 = Ok (Z.of_nat b)
         ∧ ∃ q, forward (Agent.online_network self) state !! b = Some q
                ∧ ∀ j w,
                    forward (Agent.online_network self) state !! j = Some w →
                    (w <= q)%Qc).
Proof.
  intros Hu0 Hu1. split.
  - intros Heps Hna. unfold Agent.epsilon_greedy_policy.
    destruct self; simpl in *. subst.
    assert (Hle : Qle_bool u 1%Qc = true)
      by (apply Qle_bool_iff; by apply Qclt_le_weak).
    rewrite Hle.
    destruct (Z.leb_spec num_actions 0); [lia | done].
  - intros Heps Hpos b Hb. split.
    + unfold Agent.epsilon_greedy_policy.
      destruct self; simpl in *. subst.
      assert (Hle : Qle_bool u 0%Qc = false).
      { destruct (Qle_bool u 0%Qc) eqn:Hle; [|done].
        apply Qle_bool_iff in Hle. by apply Qle_not_lt in Hle. }
      rewrite Hle. by rewrite Hb.
    + destruct (argmax_spec _ _ Hb) as (q & Hq & Hmax & _). eauto.
Qed.

End PolicyFacts.

(** ** The Double-Q targets *)

Section TargetFacts.

Context {R : Type} `{Num R} {obs weights internals : Type}.
Context (forward : @Agent.network weights internals → obs → list R).

Abbreviation agent := (@Agent.DDQNAgent R obs weights internals).

Lemma gather_nd_ok (m : list (list R)) (cols : list nat) (vs : list R) :
  Agent.gather_nd m (seq 0 (length cols)) cols = Ok vs →
  ∀ i b, cols !! i = Some b →
    ∃ row v, m !! i = Some row ∧ row !! b = Some v ∧ vs !! i = Some v.
Proof.
  unfold Agent.gather_nd. rewrite length_seq, Nat.eqb_refl. simpl.
  intros Hm i b Hb.
  assert (Hz : zip (seq 0 (length cols)) cols !! i = Some (i, b)).
  { apply lookup_zip_with_Some. exists i, b. split_and!; [done | | done].
    apply lookup_seq. split; [done|]. by eapply lookup_lt_Some. }
  destruct (mapM_ok_lookup _ _ _ _ _ Hm Hz) as (v & Hv & Hf). simpl in Hf.
  destruct (m !! i) as [row |] eqn:Hrow; simpl in Hf; [|done].
  destruct (row !! b) as [v' |] eqn:Hrb; [|done].
  injection Hf as ->. eauto.
Qed.

Lemma gather_nd_total (m : list (list R)) (cols : list nat) :
  (∀ i b, cols !! i = Some b → ∃ row v, m !! i = Some row ∧ row !! b = Some v) →
  ∃ vs, Agent.gather_nd m (seq 0 (length cols)) cols = Ok vs.
Proof.
  intros Hall. unfold Agent.gather_nd.
  rewrite length_seq, Nat.eqb_refl. simpl.
  apply mapM_total. apply Forall_lookup. intros i [i' b] Hz.
  apply lookup_zip_with_Some in Hz as (x & y & [= -> ->] & Hx & Hy).
  apply lookup_seq in Hx as [-> _]. simpl.
  destruct (Hall _ _ Hy) as (row & v & -> & Hv). simpl. rewrite Hv. eauto.
Qed.

(** The target of each sample of a mini-batch, when the targets are
    computed. *)
Lemma targets_of_ok (self : agent) (minibatch : list Agent.transition)
    (targets : list R) :
  Agent.idx self = seq 0 (length minibatch) →
  Agent.targets_of forward self minibatch = Ok targets →
  ∀ i s a r s' nd, minibatch !! i = Some (s, a, r, s', nd) →
    ∃ b v,
      argmax (forward (Agent.online_network self) s') = Ok b
      ∧ forward (Agent.target_network self) s' !! b = Some v
      ∧ targets !! i = Some (r + nd * Agent.gamma self * v)%py.
Proof.
  unfold Agent.transition in *.
  intros Hidx Ht i s a r s' nd Hi.
  unfold Agent.targets_of, mbind, result_bind in Ht.
  destruct (mapM argmax _) as [best |] eqn:Hbest; simpl in Ht; [|done].
  assert (Hlen : length best = length minibatch).
  { apply mapM_ok_length in Hbest.
    rewrite Hbest. unfold Agent.predict_on_batch, Agent.next_states_of.
    by rewrite !length_map. }
  rewrite Hidx, <- Hlen in Ht.
  destruct (Agent.gather_nd _ _ _) as [tq |] eqn:Hg; simpl in Ht; [|done].
  injection Ht as <-.
  assert (Hnext : Agent.next_states_of minibatch !! i = Some s').
  { unfold Agent.next_states_of. rewrite lookup_map, Hi. done. }
  assert (Hrow : Agent.predict_on_batch forward (Agent.online_network self)
                   (Agent.next_states_of minibatch) !! i
                 = Some (forward (Agent.online_network self) s')).
  { unfold Agent.predict_on_batch. by rewrite lookup_map, Hnext. }
  destruct (mapM_ok_lookup _ _ _ _ _ Hbest Hrow) as (b & Hb & Hargmax).
  destruct (gather_nd_ok _ _ _ Hg i b Hb) as (row & v & Hr & Hv & Htq).
  unfold Agent.predict_on_batch in Hr.
  rewrite lookup_map, Hnext in Hr. injection Hr as <-.
  exists b, v. split_and!; [done.. |].
  apply lookup_zip_with_Some. exists r, (nd, v). split_and!; [done | |].
  - unfold Agent.rewards_of. by rewrite lookup_map, Hi.
  - apply lookup_zip_with_Some. exists nd, v. split_and!; [done | | done].
    unfold Agent.not_done_of. by rewrite lookup_map, Hi.
Qed.

(** The targets are computed whenever every next state gets a non-empty row
    of action-values from the online network and a row at least as long
    from the target network. *)
Lemma targets_of_total (self : agent) (minibatch : list Agent.transition) :
  Agent.idx self = seq 0 (length minibatch) →
  Forall (λ t : Agent.transition,
            forward (Agent.online_network self) t.1.2 ≠ []
            ∧ (length (forward (Agent.online_network self) t.1.2)
               ≤ length (forward (Agent.target_network self) t.1.2))%nat)
         minibatch →
  ∃ targets, Agent.targets_of forward self minibatch = Ok targets.
Proof.
  unfold Agent.transition in *.
  intros Hidx Hshape.
  unfold Agent.targets_of, mbind, result_bind.
  assert (Hnext : ∀ i s', Agent.next_states_of minibatch !! i = Some s' →
            ∃ t, minibatch !! i = Some t ∧ t.1.2 = s').
  { intros i s' Hs. unfold Agent.next_states_of in Hs.
    rewrite lookup_map in Hs.
    destruct (minibatch !! i) as [[[[[s a] r] s''] nd] |]; [|done].
    simpl in Hs. injection Hs as <-. eauto. }
  destruct (mapM_total argmax
              (Agent.predict_on_batch forward (Agent.online_network self)
                 (Agent.next_states_of minibatch))) as [best Hbest].
  { apply Forall_lookup. intros i row Hrow.
    unfold Agent.predict_on_batch in Hrow. rewrite lookup_map in Hrow.
    destruct (Agent.next_states_of minibatch !! i) as [s' |] eqn:Hs; [|done].
    injection Hrow as <-.
    destruct (Hnext _ _ Hs) as (t & Ht & <-).
    apply argmax_total. by apply (Forall_lookup_1 _ _ _ _ Hshape Ht). }
  rewrite Hbest. simpl.
  assert (Hlen : length best = length minibatch).
  { apply mapM_ok_length in Hbest. rewrite Hbest.
    unfold Agent.predict_on_batch, Agent.next_states_of.
    by rewrite !length_map. }
  rewrite Hidx, <- Hlen.
  destruct (gather_nd_total
              (Agent.predict_on_batch forward (Agent.target_network self)
                 (Agent.next_states_of minibatch)) best) as [tq Htq].
  { intros i b Hb.
    assert (Hlt : (i < length minibatch)%nat)
      by (rewrite <- Hlen; by eapply lookup_lt_Some).
    destruct (lookup_lt_is_Some_2 minibatch i Hlt) as [t Ht].
    assert (Hs : Agent.next_states_of minibatch !! i = Some t.1.2).
    { unfold Agent.next_states_of. rewrite lookup_map, Ht.
      by destruct t as [[[[s a] r] s''] nd]. }
    assert (Hrow : Agent.predict_on_batch forward (Agent.online_network self)
                     (Agent.next_states_of minibatch) !! i
                   = Some (forward (Agent.online_network self) t.1.2)).
    { unfold Agent.predict_on_batch. by rewrite lookup_map, Hs. }
    destruct (mapM_ok_lookup _ _ _ _ _ Hbest Hrow) as (b' & Hb' & Hargmax).
    assert (b' = b) as -> by congruence.
    apply argmax_bound in Hargmax.
    destruct (Forall_lookup_1 _ _ _ _ Hshape Ht) as [_ Hle].
    destruct (lookup_lt_is_Some_2
                (forward (Agent.target_network self) t.1.2) b) as [v Hv];
      [lia|].
    exists (forward (Agent.target_network self) t.1.2), v.
    split; [|done].
    unfold Agent.predict_on_batch. by rewrite lookup_map, Hs. }
  rewrite Htq. simpl. eauto.
Qed.

End TargetFacts.

(** C1.  The regression targets of a mini-batch of [batch_size] samples, in
    exact arithmetic, for networks that give every next state a non-empty row
    of action-values ([target] rows no shorter than [online] rows).  The
    targets are computed, one per sample, and the target of the sample
    [(s, a, r, s', nd)] is [r + nd * gamma * v], where [v] is the entry of the
    target network's row for [s'] at the position [b] that [argmax] selects in
    the online network's row for [s'] (the first position of its largest
    entry).  When [nd] is zero the target is [r]. *)
Theorem double_q_targets {obs weights internals : Type}
    (forward : @Agent.network weights internals → obs → list Qc)
    (self : @Agent.DDQNAgent Qc obs weights internals)
    (minibatch : list (@Agent.transition Qc obs)) :
  Agent.idx self = Agent.tf_range (Agent.batch_size self) →
  Agent.batch_size self = Z.of_nat (length minibatch) →
  Forall (λ t : Agent.transition,
            forward (Agent.online_network self) t.1.2 ≠ []
            ∧ (length (forward (Agent.online_network self) t.1.2)
               ≤ length (forward (Agent.target_network self) t.1.2))%nat)
         minibatch →
  ∃ targets,
    Agent.targets_of forward self minibatch = Ok targets
    ∧ length targets = length minibatch
    ∧ ∀ i s a r s' nd, minibatch !! i = Some (s, a, r, s', nd) →
        ∃ b q v,
          argmax (forward (Agent.online_network self) s') = Ok b
          ∧ forward (Agent.online_network self) s' !! b = Some q
          ∧ (∀ j w, forward (Agent.online_network self) s' !! j = Some w →
               (w <= q)%Qc)
          ∧ forward (Agent.target_network self) s' !! b = Some v
          ∧ targets !! i = Some (r + nd * Agent.gamma self * v)%py
          ∧ (nd = 0%Qc → targets !! i = Some r).
Proof.
  unfold Agent.transition in *.
  intros Hidx Hbs Hshape.
  assert (Hseq : Agent.idx self = seq 0 (length minibatch)).
  { rewrite Hidx, Hbs. unfold Agent.tf_range. by rewrite Nat2Z.id. }
  destruct (targets_of_total forward self minibatch Hseq Hshape)
    as [targets Ht].
  exists targets. split; [done|]. split.
  - unfold Agent.targets_of, mbind, result_bind in Ht.
    destruct (mapM argmax _) as [best |] eqn:Hbest; simpl in Ht; [|done].
    destruct (Agent.gather_nd _ _ _) as [tq |] eqn:Hg; simpl in Ht; [|done].
    injection Ht as <-.
    assert (Hlb : length best = length minibatch).
    { apply mapM_ok_length in Hbest. rewrite Hbest.
      unfold Agent.predict_on_batch, Agent.next_states_of.
      by rewrite !length_map. }
    assert (Hlq : length tq = length minibatch).
    { unfold Agent.gather_nd in Hg.
      destruct (negb _); [done|].
      apply mapM_ok_length in Hg. rewrite Hg, length_zip_with, Hseq.
      rewrite length_seq. lia. }
    rewrite !length_zip_with. unfold Agent.rewards_of, Agent.not_done_of.
    rewrite !length_map. lia.
  - intros i s a r s' nd Hi.
    destruct (targets_of_ok forward self minibatch targets Hseq Ht
                i s a r s' nd Hi) as (b & v & Hb & Hv & Hti).
    destruct (argmax_spec _ _ Hb) as (q & Hq & Hmax & _).
    exists b, q, v. split_and!; try done.
    intros ->. rewrite Hti. f_equal. simpl. ring.
Qed.

(** ** The replay buffer *)

Section DequeFacts.

Context {T : Type}.

Lemma append_maxlen (d : deque T) (x : T) :
  maxlen (Deque.append d x) = maxlen d.
Proof. done. Qed.

(** A deque that holds the last [maxlen] items of [ts] holds, after an
    append, the last [maxlen] items of [ts ++ [x]]. *)
Lemma append_last (d : deque T) (ts : list T) (x : T) :
  items d = drop (length ts - maxlen d) ts →
  items (Deque.append d x) =
    drop (length (ts ++ [x]) - maxlen d) (ts ++ [x]).
Proof.
  intros Hd. unfold Deque.append. simpl. rewrite Hd.
  rewrite !length_app, length_drop. simpl.
  destruct (Nat.ltb_spec (maxlen d)
              (length ts - (length ts - maxlen d) + 1)) as [Hlt | Hge].
  - destruct (decide (maxlen d = 0%nat)) as [Hz | Hnz].
    + rewrite Hz, Nat.sub_0_r, drop_all. simpl.
      rewrite Nat.sub_0_r. rewrite drop_ge; [done|].
      rewrite length_app. simpl. lia.
    + rewrite drop_app_le by (rewrite length_drop; lia).
      rewrite drop_drop.
      rewrite drop_app_le by lia.
      do 2 f_equal. lia.
  - replace (length ts - maxlen d)%nat with 0%nat by lia.
    replace (length ts + 1 - maxlen d)%nat with 0%nat by lia.
    by rewrite !drop_0.
Qed.

End DequeFacts.

Section BufferFacts.

Context {R : Type} `{Num R} {obs weights internals : Type}.
Context (forward : @Agent.network weights internals → obs → list R).
Context (train_on_batch :
  @Agent.network weights internals → list obs → list (list R)
  → @Agent.network weights internals * R).
Context (build_model :
  Z → Z → list Z → R → R → bool → @Agent.network weights internals).

Abbreviation agent := (@Agent.DDQNAgent R obs weights internals).
Abbreviation run := (Agent.run forward train_on_batch).
Abbreviation step := (Agent.step forward train_on_batch).

Lemma recorded_snoc (calls : list (@Agent.call R obs)) (c : Agent.call) :
  recorded (calls ++ [c]) =
    recorded calls ++
      match c with
      | Agent.Memorize s a r s' nd => [(s, a, r, s', nd)]
      | _ => []
      end.
Proof. unfold recorded. rewrite omap_app. by destruct c. Qed.

(** From an empty buffer, the buffer after any calls is the last [maxlen]
    recorded transitions, oldest first. *)
Lemma run_experience (self0 : agent) (calls : list Agent.call) :
  items (Agent.experience self0) = [] →
  maxlen (Agent.experience (run self0 calls)) =
    maxlen (Agent.experience self0)
  ∧ items (Agent.experience (run self0 calls)) =
      drop (length (recorded calls) - maxlen (Agent.experience self0))
        (recorded calls).
Proof.
  intros Hempty. induction calls as [| c calls IH] using rev_ind.
  - simpl. rewrite Hempty. by rewrite ?drop_nil.
  - destruct IH as [IHm IHi].
    rewrite (run_snoc forward train_on_batch), recorded_snoc.
    destruct c as [state u c | s a r s' nd | rnd]; simpl.
    + pose proof (epsilon_greedy_policy_frame forward state u c
                    (run self0 calls)) as Hf.
      simpl in Hf. rewrite Hf, app_nil_r.
      by destruct (run self0 calls).
    + destruct (memorize_transition_frame s a r s' nd (run self0 calls))
        as (_ & _ & _ & _ & _ & _ & _ & _ & _ & _ & _ & He).
      rewrite He. split; [done|].
      rewrite <- IHm. apply append_last. by rewrite IHm.
    + destruct (experience_replay_frame forward train_on_batch rnd
                  (run self0 calls)) as (He & _).
      by rewrite He, app_nil_r.
Qed.

(** C4.  An agent constructed with a positive [replay_capacity], after any
    calls: the buffer holds at most [replay_capacity] transitions, namely the
    last ones recorded, in arrival order; recording one more appends it on
    the right, and when the buffer is full this removes the oldest
    transition and no other. *)
Theorem replay_buffer_bounded_fifo
    (sd na : Z) (lr g es ee : R) (eds : Z) (eed : R) (replay_capacity : Z)
    (arch : list Z) (l2 : R) (tau bs : Z)
    (self0 : agent) (calls : list Agent.call) :
  0 < replay_capacity →
  Agent.__init__ build_model sd na lr g es ee eds eed replay_capacity arch l2
    tau bs = Ok self0 →
  let capacity := Z.to_nat replay_capacity in
  let self := run self0 calls in
  let buffer := items (Agent.experience self) in
  (length buffer ≤ capacity)%nat
  ∧ buffer = drop (length (recorded calls) - capacity) (recorded calls)
  ∧ ∀ s a r s' nd,
      let buffer' :=
        items (Agent.experience (Agent.memorize_transition s a r s' nd self)) in
      ((length buffer < capacity)%nat → buffer' = buffer ++ [(s, a, r, s', nd)])
      ∧ ((length buffer = capacity)%nat →
           ∃ oldest rest,
             buffer = oldest :: rest ∧ buffer' = rest ++ [(s, a, r, s', nd)]).
Proof.
  intros Hpos Hinit. unfold Agent.__init__ in Hinit.
  destruct (replay_capacity <? 0) eqn:Hneg; [done|].
  destruct (eds =? 0) eqn:Hz; [done|].
  injection Hinit as <-. simpl.
  match goal with
  | |- context [run ?a calls] => set (self0 := a)
  end.
  destruct (run_experience self0 calls) as [Hm Hi]; [done|].
  change (maxlen (Agent.experience self0)) with (Z.to_nat replay_capacity)
    in Hm, Hi.
  split_and!.
  - rewrite Hi, length_drop. lia.
  - done.
  - intros s a r s' nd.
    destruct (memorize_transition_frame s a r s' nd (run self0 calls))
      as (_ & _ & _ & _ & _ & _ & _ & _ & _ & _ & _ & He).
    rewrite He. unfold Deque.append. simpl. rewrite Hm, length_app. simpl.
    split.
    + intros Hlt.
      destruct (Nat.ltb_spec (Z.to_nat replay_capacity)
                  (length (items (Agent.experience (run self0 calls))) + 1));
        [lia | done].
    + intros Hfull.
      destruct (items (Agent.experience (run self0 calls)))
        as [| oldest rest] eqn:Hb; simpl in *; [lia|].
      exists oldest, rest. split; [done|].
      destruct (Nat.ltb_spec (Z.to_nat replay_capacity)
                  (S (length rest + 1))); [done | lia].
Qed.

End BufferFacts.

(** ** The rolling count of the results table *)

Lemma sumZ_app (l k : list Z) : sumZ (l ++ k) = sumZ l + sumZ k.
Proof. induction l as [| x l IH]; simpl; lia. Qed.

Lemma sumZ_drop1 (l : list Z) : sumZ (drop 1 l) = sumZ l - hd 0 l.
Proof. destruct l as [| x l]; simpl; [done|]. rewrite drop_0. lia. Qed.

Lemma lastn_length {A : Type} (w : nat) (l : list A) :
  length (lastn w l) = (length l `min` w)%nat.
Proof. unfold lastn. rewrite length_drop. lia. Qed.

(** Sliding the window by one item. *)
Lemma lastn_snoc {A : Type} (w : nat) (pre : list A) (v : A) :
  (0 < w)%nat →
  (if (w <=? length (lastn w pre))%nat then drop 1 (lastn w pre)
   else lastn w pre) ++ [v] = lastn w (pre ++ [v]).
Proof.
  intros Hw. unfold lastn. rewrite length_drop, length_app. simpl.
  destruct (Nat.leb_spec w (length pre - (length pre - w))) as [Hle | Hlt].
  - rewrite drop_drop.
    rewrite drop_app_le by lia. do 2 f_equal. lia.
  - replace (length pre - w)%nat with 0%nat by lia.
    replace (length pre + 1 - w)%nat with 0%nat by lia.
    by rewrite !drop_0.
Qed.

Lemma roll_sum_lookup (w : nat) (pre values : list Z) (i : nat) :
  (0 < w)%nat → (i < length values)%nat →
  Results.roll_sum w (lastn w pre) (sumZ (lastn w pre)) values !! i =
    Some (if (length (pre ++ take (S i) values) <? w)%nat then None
          else Some (sumZ (lastn w (pre ++ take (S i) values)))).
Proof.
  intros Hw. revert pre i.
  induction values as [| v rest IH]; intros pre i Hi; simpl in Hi; [lia|].
  cbn [Results.roll_sum].
  assert (Hwin :
    (let '(win, sum_x) :=
       if (w <=? length (lastn w pre))%nat
       then (drop 1 (lastn w pre), sumZ (lastn w pre) - hd 0 (lastn w pre))
       else (lastn w pre, sumZ (lastn w pre)) in
     (win ++ [v], sum_x + v))
    = (lastn w (pre ++ [v]), sumZ (lastn w (pre ++ [v])))).
  { rewrite <- (lastn_snoc w pre v Hw).
    destruct (w <=? length (lastn w pre))%nat.
    - rewrite sumZ_app, sumZ_drop1. simpl. f_equal. lia.
    - rewrite sumZ_app. simpl. f_equal. lia. }
  destruct (if (w <=? length (lastn w pre))%nat then _ else _)
    as [win sum_x].
  injection Hwin as -> ->.
  destruct i as [| i].
  - simpl. f_equal. rewrite take_0, lastn_length, length_app. simpl.
    destruct (Nat.leb_spec w ((length pre + 1) `min` w)),
             (Nat.ltb_spec (length pre + 1) w); try lia; done.
  - simpl. rewrite IH by lia.
    by rewrite <- app_assoc.
Qed.

Lemma rolling_sum_lookup (w : nat) (values : list Z) (i : nat) :
  (0 < w)%nat → (i < length values)%nat →
  Results.rolling_sum w values !! i =
    Some (if (S i <? w)%nat then None
          else Some (sumZ (lastn w (take (S i) values)))).
Proof.
  intros Hw Hi. unfold Results.rolling_sum.
  pose proof (roll_sum_lookup w [] values i Hw Hi) as Hl.
  unfold lastn in Hl at 1 2. simpl in Hl. rewrite Hl.
  rewrite length_take. by replace (S i `min` length values)%nat with (S i)
    by lia.
Qed.

Section TableFacts.

Context {R : Type} `{Num R}.

Abbreviation bit := (λ d : R, if Results.positive d then 1 else 0).

Lemma sumZ_bits (l : list R) :
  sumZ (map bit l) = Z.of_nat (length (List.filter Results.positive l)).
Proof.
  induction l as [| d l IH]; [done|]. simpl.
  destruct (Results.positive d); simpl; lia.
Qed.

(** The wins among the episodes [k+1 .. k+n] are the positive entries among
    the [n] entries of [diffs] from position [k]. *)
Lemma wins_window (diffs : list R) (k n : nat) :
  (k + n ≤ length diffs)%nat →
  length (List.filter (Results.win_at diffs) (seq (S k) n)) =
    length (List.filter Results.positive (take n (drop k diffs))).
Proof.
  revert k. induction n as [| n IH]; intros k Hk; [done|].
  destruct (lookup_lt_is_Some_2 diffs k) as [d Hd]; [lia|].
  rewrite (drop_S _ _ _ Hd). simpl.
  unfold Results.win_at at 1. simpl. rewrite Nat.sub_0_r, Hd.
  specialize (IH (S k)).
  destruct (Results.positive d); simpl; rewrite IH by lia; done.
Qed.

(** C8.  Row [i] (1-based) of the results table, for a table of at least
    [i] episodes: its Strategy Wins value is absent when [i < 100];
    otherwise it is the number of episodes [j] in [i-99 .. i] whose
    Difference is positive, a count. *)
Theorem strategy_wins_rolling_count (episode : Z)
    (navs market_navs diffs : list R) (t : Results.table) (i : nat) :
  Results.results episode navs market_navs diffs = Ok t →
  (1 ≤ i ≤ length diffs)%nat →
  Results.Episode t !! (i - 1)%nat = Some (Z.of_nat i)
  ∧ Results.Difference t = diffs
  ∧ Results.Strategy_Wins t !! (i - 1)%nat =
      Some (if (i <? 100)%nat then None
            else Some (Results.wins_between diffs (i - 99) i)).
Proof.
  intros Hres Hi. unfold Results.results in Hres.
  destruct (_ && _) eqn:Hlen; [|done].
  injection Hres as <-. simpl.
  apply andb_prop in Hlen as [Hlen Hd]. apply Nat.eqb_eq in Hd.
  split_and!; [| done |].
  - unfold Results.episode_index in *. rewrite lookup_map.
    rewrite length_map, length_seq in Hd.
    rewrite lookup_seq_lt by lia. simpl. f_equal. lia.
  - unfold Results.strategy_wins.
    rewrite rolling_sum_lookup by (rewrite ?length_map; lia).
    replace (S (i - 1)) with i by lia. f_equal.
    destruct (Nat.ltb_spec i 100) as [Hlt | Hge]; [done|].
    f_equal. unfold Results.wins_between, lastn.
    replace (S i - (i - 99))%nat with 100%nat by lia.
    replace (i - 99)%nat with (S (i - 100)) by lia.
    rewrite wins_window by lia.
    rewrite <- sumZ_bits. f_equal.
    change (map bit diffs) with (bit <$> diffs).
    change (map bit (take 100 (drop (i - 100) diffs)))
      with (bit <$> take 100 (drop (i - 100) diffs)).
    rewrite length_take, length_fmap.
    replace (i `min` length diffs)%nat with i by lia.
    rewrite fmap_take, fmap_drop, take_drop_commute.
    by replace (i - 100 + 100)%nat with i by lia.
Qed.

End TableFacts.

(** ** The pandas helpers *)

Lemma lstrip_chars_spec (l : list ascii) :
  ∃ pre, l = pre ++ Frame.lstrip_chars l
         ∧ blank pre
         ∧ ∀ c, head (Frame.lstrip_chars l) = Some c → Frame.isspace c = false.
Proof.
  induction l as [| c l (pre & Hl & Hpre & Hhd)]; simpl.
  - exists []. split_and!; [done | by constructor | done].
  - destruct (Frame.isspace c) eqn:Hc.
    + exists (c :: pre). split_and!; [by rewrite Hl at 1 | | done].
      by constructor.
    + exists []. split_and!; [done | by constructor |].
      intros c' [= <-]. done.
Qed.

(** [strip_chars] removes a blank prefix and a blank suffix, and what is
    left neither starts nor ends with a blank. *)
Lemma strip_chars_spec (l : list ascii) :
  ∃ pre post,
    l = pre ++ Frame.strip_chars l ++ post
    ∧ blank pre ∧ blank post
    ∧ (∀ c, head (Frame.strip_chars l) = Some c → Frame.isspace c = false)
    ∧ (∀ c, last (Frame.strip_chars l) = Some c → Frame.isspace c = false).
Proof.
  unfold Frame.strip_chars.
  destruct (lstrip_chars_spec l) as (pre & Hl & Hpre & Hhd).
  destruct (lstrip_chars_spec (reverse (Frame.lstrip_chars l)))
    as (tsop & Hr & Hpost & Hlast).
  set (m := Frame.lstrip_chars l) in *.
  set (k := Frame.lstrip_chars (reverse m)) in *.
  assert (Hm : m = reverse k ++ reverse tsop).
  { rewrite <- reverse_app, <- Hr. by rewrite reverse_involutive. }
  exists pre, (reverse tsop). split_and!.
  - by rewrite <- Hm.
  - done.
  - apply Forall_reverse. done.
  - intros c Hc. apply Hhd. rewrite Hm.
    destruct (reverse k); [done|]. done.
  - intros c Hc. apply Hlast. by rewrite last_reverse in Hc.
Qed.

Lemma strip_stripped (s : string) : stripped s (Frame.strip s).
Proof.
  unfold stripped, Frame.strip.
  rewrite list_ascii_of_string_of_list_ascii.
  apply strip_chars_spec.
Qed.

Section FrameFacts.

Context {V : Type}.

Abbreviation frame := (@Frame.DataFrame V).

(** C9.  [flatten_cols] on a live table whose column labels are two-level
    tuples returns the reference it was given; the store differs only at
    that reference, where the table keeps its rows and cells and has one
    flat label per old label; the label of [(a, b)] is [a], a space and
    [b], without surrounding blanks. *)
Theorem flatten_cols_two_level (st : gmap nat frame) (df : nat) (t : frame) :
  st !! df = Some t →
  Forall (λ col, ∃ a b, col = Frame.Levels [a; b]) (Frame.columns t) →
  ∃ st' t',
    Frame.flatten_cols df st = Some (Ok df, st')
    ∧ (∀ r, r ≠ df → st' !! r = st !! r)
    ∧ st' !! df = Some t'
    ∧ Frame.index t' = Frame.index t
    ∧ Frame.data t' = Frame.data t
    ∧ length (Frame.columns t') = length (Frame.columns t)
    ∧ ∀ i a b, Frame.columns t !! i = Some (Frame.Levels [a; b]) →
        let joined := String.append a (String.append " " b) in
        Frame.columns t' !! i = Some (Frame.Flat (Frame.strip joined))
        ∧ stripped joined (Frame.strip joined).
Proof.
  intros Hdf Hcols. unfold Frame.flatten_cols. rewrite Hdf. simpl.
  eexists _, _. split_and!.
  - done.
  - intros r Hr. by apply lookup_insert_ne.
  - by apply lookup_insert_eq.
  - done.
  - done.
  - simpl. by rewrite length_map.
  - intros i a b Hi. simpl. split; [|apply strip_stripped].
    by rewrite lookup_map, Hi.
Qed.

(** C10.  [mask] on a live table, for any key and any predicate over the
    column: whatever the outcome, the input table and every other object of
    the store are as before; when a table is returned it lives at a new
    address, different from the input's. *)
Theorem mask_leaves_input (st : gmap nat frame) (df : nat) (t : frame)
    (key : Frame.label) (function : list (Z * V) → list bool) :
  st !! df = Some t →
  ∃ out st',
    Frame.mask df key function st = Some (out, st')
    ∧ st' !! df = Some t
    ∧ (∀ r, is_Some (st !! r) → st' !! r = st !! r)
    ∧ match out with
      | Ok r => r ≠ df ∧ st !! r = None ∧ is_Some (st' !! r)
      | Raise _ => st' = st
      end.
Proof.
  intros Hdf. unfold Frame.mask. rewrite Hdf. simpl.
  destruct (Frame.getitem_column t key) as [series | e];
    [| by eexists _, _].
  destruct (Frame.getitem_mask t (function series)) as [t' | e];
    [| by eexists _, _].
  pose proof (is_fresh (dom st)) as Hfresh.
  set (r := fresh (dom st)) in *.
  assert (Hnone : st !! r = None) by (by apply not_elem_of_dom).
  assert (Hne : r ≠ df) by (intros ->; congruence).
  eexists _, _. split; [done|]. split; [|split].
  - by rewrite lookup_insert_ne.
  - intros r' [x Hx]. rewrite lookup_insert_ne; [done|]. congruence.
  - simpl. split; [done|]. split; [done|].
    rewrite lookup_insert_eq. eauto.
Qed.

End FrameFacts.

(** ** Concrete runs *)

Example demo_init_start :
  Demo.init 2 2 1 = Ok (Demo.start 2 2 1).
Proof. reflexivity. Qed.

Lemma experience_replay_below_batch_size_witness :
  Deque.len (Agent.experience (Demo.start 2 2 2))
    < Agent.batch_size (Demo.start 2 2 2)
  ∧ Agent.experience_replay Tabular.forward Tabular.train_on_batch [0%nat]
      (Demo.start 2 2 2) = (Ok tt, Demo.start 2 2 2).
Proof.
  split; [reflexivity|].
  apply (experience_replay_below_batch_size Tabular.forward
           Tabular.train_on_batch [0%nat] (Demo.start 2 2 2)).
  reflexivity.
Defined.

Lemma target_sync_cadence_witness :
  let step := Agent.step Tabular.forward Tabular.train_on_batch in
  let on := Demo.run (Demo.start 2 2 1) Demo.two_steps in
  let off := Demo.run (Demo.start 2 2 1) (drop 1 Demo.two_steps) in
  (Agent.total_steps on mod Agent.tau on = 0
   ∧ Agent.get_weights (Agent.target_network (step on (Agent.Replay [0%nat])))
     = Agent.get_weights (Agent.online_network (step on (Agent.Replay [0%nat]))))
  ∧ (Agent.total_steps off mod Agent.tau off = 1
     ∧ Agent.target_network (step off (Agent.Replay [0%nat]))
       = Agent.target_network off).
Proof.
  intros step on off. split.
  - split; [reflexivity|].
    apply (target_sync_cadence Tabular.forward Tabular.train_on_batch on
             (Agent.Replay [0%nat])).
    split; [eexists; reflexivity | split; [discriminate | reflexivity]].
  - split; [reflexivity|].
    apply (target_sync_cadence Tabular.forward Tabular.train_on_batch off
             (Agent.Replay [0%nat])).
    intros (_ & _ & Hm). discriminate Hm.
Defined.

(** The hand-built mini-batch: the continuing sample gets
    [1/2 + 1 * 99/100 * 3], where 3 is the target network's value of the
    action the online network prefers (the target network's own largest
    value is 9); the terminal sample gets its reward. *)
Example hand_targets :
  match Agent.targets_of Tabular.forward Demo.hand Demo.batch with
  | Ok targets => map this targets
  | Raise _ => []
  end = [347 # 100; 2 # 1]%Q.
Proof. vm_compute. reflexivity. Qed.

Lemma double_q_targets_witness :
  Agent.idx Demo.hand = Agent.tf_range (Agent.batch_size Demo.hand)
  ∧ Agent.batch_size Demo.hand = Z.of_nat (length Demo.batch)
  ∧ ∃ targets,
      Agent.targets_of Tabular.forward Demo.hand Demo.batch = Ok targets
      ∧ length targets = length Demo.batch.
Proof.
  split; [reflexivity|]. split; [reflexivity|].
  destruct (double_q_targets Tabular.forward Demo.hand Demo.batch)
    as (targets & Ht & Hl & _).
  - reflexivity.
  - reflexivity.
  - repeat constructor; (discriminate || (simpl; lia)).
  - exists targets. split; assumption.
Defined.

Lemma epsilon_schedule_witness :
  Demo.init 2 2 1 = Ok (Demo.start 2 2 1)
  ∧ terminal_calls (replicate 250 Demo.episode_end) = 250%nat
  ∧ Agent.epsilon
      (Demo.run (Demo.start 2 2 1) (replicate 250 Demo.episode_end))
    = Q2Qc (1 # 100).
Proof.
  split; [reflexivity|]. split; [vm_compute; reflexivity|].
  destruct epsilon_schedule as (H250 & _).
  apply (H250 nat (list (list Qc)) unit Tabular.forward
           Tabular.train_on_batch Tabular.build_model 2 3 (Demo.q 1 10000)
           (Demo.q 99 100) 2 [4] (Demo.q 1 1000000) 2 1
           (Demo.start 2 2 1) (replicate 250 Demo.episode_end)).
  - reflexivity.
  - vm_compute. reflexivity.
Defined.

Lemma replay_buffer_bounded_fifo_witness :
  0 < 2
  ∧ Demo.init 2 2 1 = Ok (Demo.start 2 2 1)
  ∧ (length (items (Agent.experience
               (Demo.run (Demo.start 2 2 1) Demo.three_records))) ≤ 2)%nat
  ∧ items (Agent.experience
             (Demo.run (Demo.start 2 2 1) Demo.three_records))
    = drop 1 (recorded Demo.three_records).
Proof.
  split; [reflexivity|]. split; [reflexivity|].
  destruct (replay_buffer_bounded_fifo Tabular.forward Tabular.train_on_batch
              Tabular.build_model 2 3 (Demo.q 1 10000) (Demo.q 99 100)
              (Demo.q 1 1) (Demo.q 1 100) 250 (Demo.q 99 100) 2 [4]
              (Demo.q 1 1000000) 2 1 (Demo.start 2 2 1) Demo.three_records)
    as (Hlen & Hlast & _).
  - reflexivity.
  - reflexivity.
  - split; [exact Hlen | exact Hlast].
Defined.

(** C6 at the failing input: an episode of two steps with rewards 1 and 2
    is recorded with reward 1 and length 1. *)
Lemma episode_end_bookkeeping_witness :
  truthy (Demo.q 1 1) = true
  ∧ truthy (Demo.q 0 1) = false
  ∧ let self := Demo.run (Demo.start 2 2 1) Demo.short_episode in
    map this (Agent.rewards_history self) = [1 # 1]%Q
    ∧ Agent.steps_per_episode self = [1]
    ∧ this (Agent.episode_reward self) = (0 # 1)%Q
    ∧ Agent.episode_length self = 0.
Proof.
  split; [reflexivity|]. split; [reflexivity|].
  destruct (episode_end_bookkeeping Tabular.forward Tabular.train_on_batch
              (Demo.q 1 1) (Demo.q 0 1) [(0%nat, 1, Demo.q 1 1, 1%nat)]
              1%nat 0 (Demo.q 2 1) 0%nat (Demo.start 2 2 1))
    as (Hr & Hs & He & Hl).
  - reflexivity.
  - reflexivity.
  - split; [|split; [|split]].
    + change (Demo.run (Demo.start 2 2 1) Demo.short_episode)
        with (Agent.run Tabular.forward Tabular.train_on_batch
                (Demo.start 2 2 1)
                (continuing (Demo.q 1 1) [(0%nat, 1, Demo.q 1 1, 1%nat)]
                 ++ [Agent.Memorize 1%nat 0 (Demo.q 2 1) 0%nat (Demo.q 0 1)])).
      rewrite Hr. reflexivity.
    + exact Hs.
    + change (Demo.run (Demo.start 2 2 1) Demo.short_episode)
        with (Agent.run Tabular.forward Tabular.train_on_batch
                (Demo.start 2 2 1)
                (continuing (Demo.q 1 1) [(0%nat, 1, Demo.q 1 1, 1%nat)]
                 ++ [Agent.Memorize 1%nat 0 (Demo.q 2 1) 0%nat (Demo.q 0 1)])).
      rewrite He. reflexivity.
    + exact Hl.
Defined.

(** C7 as stated fails: with epsilon 0 and the draw [u = 0], which
    [np.random.rand()] can return, the comparison [u <= epsilon] holds and
    the action is the random choice, here 2, while the online network
    prefers action 0. *)
Lemma epsilon_zero_draw_zero_explores :
  Agent.epsilon Demo.greedy = 0%Qc
  ∧ argmax (Tabular.forward (Agent.online_network Demo.greedy) 0%nat) = Ok 0%nat
  ∧ (Agent.epsilon_greedy_policy Tabular.forward 0%nat (Demo.q 0 1) 2
       Demo.greedy).1 = Ok 2
  ∧ ¬ (∀ (u : Qc) (c : Z), (0 <= u)%Qc → (u < 1)%Qc →
         (Agent.epsilon_greedy_policy Tabular.forward 0%nat u c
            Demo.greedy).1 = Ok 0).
Proof.
  split; [apply Qc_is_canon; reflexivity|].
  split; [reflexivity|]. split; [reflexivity|].
  intros Hall. specialize (Hall (Demo.q 0 1) 2).
  assert (Hc : (Agent.epsilon_greedy_policy Tabular.forward 0%nat
                  (Demo.q 0 1) 2 Demo.greedy).1 = Ok 2) by reflexivity.
  rewrite Hall in Hc; [discriminate | discriminate | reflexivity].
Qed.

Lemma epsilon_greedy_boundaries_witness :
  (0 <= Demo.q 1 2)%Qc ∧ (Demo.q 1 2 < 1)%Qc
  ∧ (Agent.epsilon_greedy_policy Tabular.forward 0%nat (Demo.q 1 2) 2
       Demo.exploring).1 = Ok 2
  ∧ (Agent.epsilon_greedy_policy Tabular.forward 0%nat (Demo.q 1 2) 2
       Demo.greedy).1 = Ok 0.
Proof.
  assert (H0 : (0 <= Demo.q 1 2)%Qc) by discriminate.
  assert (H1 : (Demo.q 1 2 < 1)%Qc) by reflexivity.
  split; [exact H0|]. split; [exact H1|]. split.
  - apply (epsilon_greedy_boundaries Tabular.forward Demo.exploring 0%nat
             (Demo.q 1 2) 2 H0 H1).
    + apply Qc_is_canon. reflexivity.
    + reflexivity.
  - destruct (epsilon_greedy_boundaries Tabular.forward Demo.greedy 0%nat
                (Demo.q 1 2) 2 H0 H1) as [_ Hgreedy].
    apply (Hgreedy (Qc_is_canon _ _ eq_refl) eq_refl 0%nat eq_refl).
Defined.

Lemma strategy_wins_rolling_count_witness :
  (∃ t, Results.results 100 Demo.navs Demo.navs Demo.diffs = Ok t
        ∧ Results.Strategy_Wins t !! 98%nat = Some None
        ∧ Results.Strategy_Wins t !! 99%nat = Some (Some 60))
  ∧ (1 ≤ 100 ≤ length Demo.diffs)%nat.
Proof.
  split; [|vm_compute; lia].
  eexists. split; [reflexivity|].
  split.
  - destruct (strategy_wins_rolling_count 100 Demo.navs Demo.navs Demo.diffs
                _ 99 eq_refl) as (_ & _ & Hw); [vm_compute; lia|].
    etransitivity; [exact Hw | vm_compute; reflexivity].
  - destruct (strategy_wins_rolling_count 100 Demo.navs Demo.navs Demo.diffs
                _ 100 eq_refl) as (_ & _ & Hw); [vm_compute; lia|].
    etransitivity; [exact Hw | vm_compute; reflexivity].
Defined.

(** The labels [("a", ""), ("b", "c")] become ["a", "b c"]. *)
Example flatten_labels :
  map (λ col, Frame.Flat (Frame.flat_label col)) (Frame.columns Demo.two_level)
  = [Frame.Flat "a"; Frame.Flat "b c"].
Proof. reflexivity. Qed.

Lemma flatten_cols_two_level_witness :
  Demo.store !! 7%nat = Some Demo.two_level
  ∧ ∃ st' t',
      Frame.flatten_cols 7%nat Demo.store = Some (Ok 7%nat, st')
      ∧ st' !! 7%nat = Some t'
      ∧ Frame.columns t' !! 0%nat = Some (Frame.Flat "a")
      ∧ Frame.columns t' !! 1%nat = Some (Frame.Flat "b c").
Proof.
  assert (Hlive : Demo.store !! 7%nat = Some Demo.two_level) by reflexivity.
  split; [exact Hlive|].
  destruct (flatten_cols_two_level Demo.store 7%nat Demo.two_level Hlive)
    as (st' & t' & Hret & _ & Hst & _ & _ & _ & Hcols).
  - repeat constructor; eauto.
  - exists st', t'. split; [exact Hret|]. split; [exact Hst|]. split.
    + apply (Hcols 0%nat "a"%string ""%string eq_refl).
    + apply (Hcols 1%nat "b"%string "c"%string eq_refl).
Defined.

Lemma mask_leaves_input_witness :
  Demo.store !! 7%nat = Some Demo.two_level
  ∧ ∃ out st',
      Frame.mask 7%nat (Frame.Levels ["a"%string; ""%string]) Demo.above_two
        Demo.store = Some (out, st')
      ∧ st' !! 7%nat = Some Demo.two_level.
Proof.
  assert (Hlive : Demo.store !! 7%nat = Some Demo.two_level) by reflexivity.
  split; [exact Hlive|].
  destruct (mask_leaves_input Demo.store 7%nat Demo.two_level
              (Frame.Levels ["a"%string; ""%string]) Demo.above_two Hlive)
    as (out & st' & Hm & Hdf & _).
  exists out, st'. split; [exact Hm | exact Hdf].
Defined.

(** The rows a mask keeps: the table with values 1, 2, 3, 4 under
    [value > 2]. *)
Example mask_rows :
  (t ← Frame.getitem_column Demo.two_level (Frame.Levels ["a"; ""])
       ≫= (λ series, Frame.getitem_mask Demo.two_level (Demo.above_two series));
   Ok (Frame.index t, Frame.data t))
  = Ok ([2; 3], [[3; 4]; [30; 40]]).
Proof. reflexivity. Qed.

(** * Further properties *)

(** ** Counters and histories of the agent *)

Section CounterFacts.

Context {R : Type} `{Num R} {obs weights internals : Type}.
Context (forward : @Agent.network weights internals → obs → list R).
Context (train_on_batch :
  @Agent.network weights internals → list obs → list (list R)
  → @Agent.network weights internals * R).

Abbreviation agent := (@Agent.DDQNAgent R obs weights internals).
Abbreviation run := (Agent.run forward train_on_batch).
Abbreviation step := (Agent.step forward train_on_batch).

Lemma step_counters (self : agent) (c : Agent.call) :
  Agent.total_steps (step self c) =
    Agent.total_steps self + (if acting c then 1 else 0)
  ∧ Agent.episodes (step self c) =
      Agent.episodes self + (if terminal c then 1 else 0)
  ∧ Agent.rewards_history (step self c) =
      Agent.rewards_history self
        ++ (if terminal c then [Agent.episode_reward self] else [])
  ∧ Agent.steps_per_episode (step self c) =
      Agent.steps_per_episode self
        ++ (if terminal c then [Agent.episode_length self] else [])
  ∧ Agent.episode_length (step self c) =
      match c with
      | Agent.Memorize _ _ _ _ nd =>
          if truthy nd then Agent.episode_length self + 1 else 0
      | _ => Agent.episode_length self
      end
  ∧ Agent.episode_reward (step self c) =
      match c with
      | Agent.Memorize _ _ r _ nd =>
          if truthy nd then (Agent.episode_reward self + r)%py else of_Z 0
      | _ => Agent.episode_reward self
      end.
Proof.
  destruct c as [state u c | s a r s' nd | rnd]; simpl.
  - pose proof (epsilon_greedy_policy_frame forward state u c self) as Hf.
    simpl in Hf. rewrite Hf. destruct self; simpl.
    rewrite !app_nil_r. split_and!; done || lia.
  - unfold Agent.memorize_transition. destruct self; simpl.
    destruct (truthy nd); simpl.
    + rewrite !app_nil_r. split_and!; done || lia.
    + repeat (match goal with
              | |- context [if ?b then _ else _] => destruct b
              end; simpl); split_and!; done || lia.
  - unfold Agent.experience_replay.
    repeat (match goal with
            | |- context [if ?b then _ else _] => destruct b
            | |- context [match ?x with _ => _ end] => destruct x
            end;
            try (destruct self; simpl; rewrite ?app_nil_r;
                 split_and!; done || lia)).
Qed.

Lemma run_episodes (self : agent) (calls : list Agent.call) :
  Agent.episodes (run self calls) =
    Agent.episodes self + Z.of_nat (terminal_calls calls).
Proof.
  induction calls as [| c calls IH] using rev_ind; simpl.
  - unfold terminal_calls. simpl. lia.
  - rewrite (run_snoc forward train_on_batch).
    destruct (step_counters (run self calls) c) as (_ & He & _).
    rewrite He, IH. unfold terminal_calls.
    rewrite List.filter_app, length_app. simpl.
    destruct (terminal c); simpl; lia.
Qed.

(** X1.  The counters of the agent after any calls: [total_steps] has grown
    by the number of action selections (also of those that raised),
    [episodes] by the number of episode ends, and each of the two histories
    has one more entry per episode end. *)
Theorem lifetime_counters (self : agent) (calls : list Agent.call) :
  let self' := run self calls in
  Agent.total_steps self' =
    Agent.total_steps self + Z.of_nat (act_calls calls)
  ∧ Agent.episodes self' =
      Agent.episodes self + Z.of_nat (terminal_calls calls)
  ∧ length (Agent.rewards_history self') =
      (length (Agent.rewards_history self) + terminal_calls calls)%nat
  ∧ length (Agent.steps_per_episode self') =
      (length (Agent.steps_per_episode self) + terminal_calls calls)%nat.
Proof.
  induction calls as [| c calls IH] using rev_ind; simpl.
  - unfold act_calls, terminal_calls. simpl. split_and!; lia.
  - destruct IH as (IHt & IHe & IHr & IHs).
    rewrite (run_snoc forward train_on_batch).
    destruct (step_counters (run self calls) c)
      as (Ht & He & Hr & Hs & _ & _).
    rewrite Ht, He, Hr, Hs, !length_app, IHt, IHe, IHr, IHs.
    unfold act_calls, terminal_calls.
    rewrite !List.filter_app, !length_app. simpl.
    destruct (acting c), (terminal c); simpl; split_and!; lia.
Qed.

(** X2.  Every recorded transition is accounted for exactly once: the
    entries of [steps_per_episode], the running [episode_length] and one
    uncounted step per episode end add up to the number of transitions
    recorded. *)
Theorem steps_accounted (self : agent) (calls : list Agent.call) :
  let self' := run self calls in
  sumZ (Agent.steps_per_episode self') + Agent.episode_length self'
    + Z.of_nat (terminal_calls calls)
  = sumZ (Agent.steps_per_episode self) + Agent.episode_length self
    + Z.of_nat (length (recorded calls)).
Proof.
  induction calls as [| c calls IH] using rev_ind; simpl.
  - unfold terminal_calls. simpl. lia.
  - rewrite (run_snoc forward train_on_batch), recorded_snoc.
    destruct (step_counters (run self calls) c)
      as (_ & _ & _ & Hs & Hl & _).
    rewrite Hs, Hl, sumZ_app, length_app.
    unfold terminal_calls in *.
    rewrite List.filter_app, length_app. simpl.
    destruct c as [state u c | s a r s' nd | rnd]; simpl.
    + lia.
    + destruct (truthy nd); simpl; lia.
    + lia.
Qed.

End CounterFacts.

(** ** The exploration schedule, in closed form *)

Lemma Q2Qc_inject_Z_succ (n : nat) :
  Q2Qc (inject_Z (Z.of_nat (S n))) = (Q2Qc (inject_Z (Z.of_nat n)) + 1)%Qc.
Proof.
  apply Qc_is_canon. simpl. rewrite !Qred_correct.
  rewrite Nat2Z.inj_succ. unfold Z.succ. rewrite inject_Z_plus. reflexivity.
Qed.

Lemma schedule_linear (n : nat) :
  (n < 250)%nat → (schedule n - Q2Qc (99 # 25000))%Qc = schedule (S n).
Proof.
  intros Hn. unfold schedule.
  destruct (Nat.leb_spec n 250); [|lia].
  destruct (Nat.leb_spec (S n) 250); [|lia].
  rewrite Q2Qc_inject_Z_succ. ring.
Qed.

Lemma schedule_exponential (n : nat) :
  (250 ≤ n)%nat → (schedule n * Q2Qc (99 # 100))%Qc = schedule (S n).
Proof.
  intros Hn. unfold schedule.
  destruct (Nat.leb_spec (S n) 250); [lia|].
  replace (S n - 250)%nat with (S (n - 250)) by lia.
  destruct (Nat.leb_spec n 250).
  - assert (n = 250%nat) as -> by lia.
    apply Qc_is_canon. vm_compute. reflexivity.
  - simpl. ring.
Qed.

Lemma iter_schedule (n : nat) :
  Nat.iter n
    (decay Notebook.epsilon_decay_steps
       ((Notebook.epsilon_start - Notebook.epsilon_end)
        / of_Z Notebook.epsilon_decay_steps)%py
       Notebook.epsilon_exponential_decay)
    ((Notebook.epsilon_start : Qc), 0)
  = (schedule n, Z.of_nat n).
Proof.
  assert (Hd : ((Notebook.epsilon_start - Notebook.epsilon_end)
                / of_Z Notebook.epsilon_decay_steps)%py = Q2Qc (99 # 25000))
    by (apply Qc_is_canon; vm_compute; reflexivity).
  assert (He : (Notebook.epsilon_exponential_decay : Qc) = Q2Qc (99 # 100))
    by (apply Qc_is_canon; vm_compute; reflexivity).
  induction n as [| n IH].
  - simpl. f_equal; try (apply Qc_is_canon; vm_compute; reflexivity).
  - rewrite Nat.iter_succ, IH. unfold decay. cbn [fst snd]. rewrite Hd, He.
    change Notebook.epsilon_decay_steps with 250.
    f_equal; [|lia].
    destruct (Z.ltb_spec (Z.of_nat n) 250).
    + apply schedule_linear. lia.
    + apply schedule_exponential. lia.
Qed.

(** X3.  For every [n], epsilon after [n] episode ends is [schedule n]:
    [1 - n * 99/25000] up to the 250th, and then [1/100 * (99/100)^(n-250)]
    (exact arithmetic, the exploration parameters of the notebook). *)
Theorem epsilon_closed_form (n : nat) :
  epsilon_after (R := Qc) n (λ e, e = schedule n).
Proof. apply epsilon_after_iter. by rewrite iter_schedule. Qed.




(** ** Evaluation mode, and the edges of experience replay *)

Section ModeFacts.

Context {R : Type} `{Num R} {obs weights internals : Type}.
Context (forward : @Agent.network weights internals → obs → list R).
Context (train_on_batch :
  @Agent.network weights internals → list obs → list (list R)
  → @Agent.network weights internals * R).
Context (build_model :
  Z → Z → list Z → R → R → bool → @Agent.network weights internals).

Abbreviation agent := (@Agent.DDQNAgent R obs weights internals).
Abbreviation run := (Agent.run forward train_on_batch).
Abbreviation step := (Agent.step forward train_on_batch).
Abbreviation experience_replay :=
  (Agent.experience_replay forward train_on_batch).

Lemma step_train (self : agent) (c : Agent.call) :
  Agent.train (step self c) = Agent.train self.
Proof.
  destruct c as [state u c | s a r s' nd | rnd]; simpl.
  - pose proof (epsilon_greedy_policy_frame forward state u c self) as Hf.
    simpl in Hf. rewrite Hf. by destruct self.
  - by destruct (memorize_transition_frame s a r s' nd self)
      as (_ & _ & _ & _ & _ & _ & _ & Ht & _).
  - by destruct (experience_replay_frame forward train_on_batch rnd self)
      as (_ & _ & _ & _ & _ & _ & _ & Ht).
Qed.

(** X5.  With the [train] flag off, no call changes epsilon, however many
    episodes end; the episodes are still counted. *)
Theorem evaluation_mode_keeps_epsilon (self : agent)
    (calls : list Agent.call) :
  Agent.train self = false →
  Agent.train (run self calls) = false
  ∧ Agent.epsilon (run self calls) = Agent.epsilon self
  ∧ Agent.episodes (run self calls) =
      Agent.episodes self + Z.of_nat (terminal_calls calls).
Proof.
  intros Hoff.
  split; [| split; [| apply (run_episodes forward train_on_batch)]].
  - induction calls as [| c calls IH] using rev_ind; [done|].
    by rewrite (run_snoc forward train_on_batch), step_train.
  - induction calls as [| c calls IH] using rev_ind; [done|].
    rewrite (run_snoc forward train_on_batch), <- IH.
    assert (Ht : Agent.train (run self calls) = false).
    { clear IH. induction calls as [| c' calls IH] using rev_ind; [done|].
      by rewrite (run_snoc forward train_on_batch), step_train. }
    destruct c as [state u c | s a r s' nd | rnd]; simpl.
    + pose proof (epsilon_greedy_policy_frame forward state u c
                    (run self calls)) as Hf.
      simpl in Hf. rewrite Hf. by destruct (run self calls).
    + unfold Agent.memorize_transition.
      destruct (run self calls); simpl in *. subst.
      by destruct (truthy nd).
    + by destruct (experience_replay_frame forward train_on_batch rnd
                     (run self calls)) as (_ & _ & _ & _ & _ & He & _).
Qed.

(** X6.  A batch size of zero or less makes every call of
    [experience_replay] raise [ValueError] (the sample is refused, or it is
    empty and cannot be unpacked), and the agent is as before. *)
Theorem experience_replay_bad_batch_size (rnd : list nat) (self : agent) :
  Agent.batch_size self ≤ 0 →
  experience_replay rnd self = (Raise ValueError, self).
Proof.
  intros Hbs. unfold Agent.experience_replay, Deque.len, sample.
  destruct (Z.gtb_spec (Agent.batch_size self)
              (Z.of_nat (length (items (Agent.experience self)))));
    [lia|].
  destruct (Z.leb_spec 0 (Agent.batch_size self)); simpl; [|done].
  assert (Agent.batch_size self = 0) as -> by lia. simpl.
  destruct (0 <=? _); done.
Qed.

(** X7.  With [tau = 0] no learning update finishes normally: whenever the
    buffer holds a batch, the call raises; and if the update was applied (a
    loss was recorded), the error is [ZeroDivisionError] from the modulus,
    raised after the online network was trained and with the target network
    untouched. *)
Theorem experience_replay_zero_tau (rnd : list nat) (self : agent) :
  Agent.tau self = 0 →
  Agent.batch_size self ≤ Deque.len (Agent.experience self) →
  let out := (experience_replay rnd self).1 in
  let self' := (experience_replay rnd self).2 in
  (∃ e, out = Raise e)
  ∧ Agent.target_network self' = Agent.target_network self
  ∧ (learned self self' → out = Raise ZeroDivisionError).
Proof.
  intros Htau Hlen. unfold Agent.experience_replay.
  destruct (Z.gtb_spec (Agent.batch_size self)
              (Deque.len (Agent.experience self))); [lia|].
  repeat (match goal with
          | |- context [if ?b then _ else _] => destruct b eqn:?
          | |- context [match ?x with _ => _ end] => destruct x eqn:?
          end;
          try (simpl; split_and!;
               [ eauto | done
               | intros Hl; by apply not_learned_same_losses in Hl ])).
  all: destruct self; simpl in *; subst; try done.
  split_and!; eauto.
Qed.

End ModeFacts.

(** ** The learning update *)

Section SampleFacts.

Context {T : Type}.

Lemma swap_remove_perm (pool : list T) (j : nat) (x y : T) :
  pool !! j = Some x → last pool = Some y →
  x :: take (length pool - 1) (<[j := y]> pool) ≡ₚ pool.
Proof.
  intros Hj Hlast. apply last_Some in Hlast as [l' ->].
  rewrite length_app. simpl.
  replace (length l' + 1 - 1)%nat with (length l') by lia.
  destruct (decide (j < length l')%nat) as [Hlt | Hge].
  - rewrite lookup_app_l in Hj by done.
    rewrite insert_app_l by done.
    rewrite take_app_length' by (by rewrite length_insert).
    rewrite <- (take_drop_middle l' j x Hj) at 2.
    rewrite insert_take_drop by done.
    rewrite <- !app_assoc. simpl.
    rewrite <- (Permutation_middle (take j l') (drop (S j) l' ++ [y]) x).
    rewrite <- (Permutation_middle (take j l') (drop (S j) l') y).
    f_equiv. rewrite app_assoc. apply Permutation_cons_append.
  - assert (j = length l') as ->.
    { apply lookup_lt_Some in Hj. rewrite length_app in Hj. simpl in Hj. lia. }
    rewrite list_lookup_middle in Hj by done. injection Hj as <-.
    rewrite list_insert_id by (by rewrite list_lookup_middle).
    rewrite take_app_length. apply Permutation_cons_append.
Qed.

(** [random.sample] draws without replacement: the sample is a sub-multiset
    of the population. *)
Lemma sample_pool_submseteq (k : nat) (pool : list T) (rnd : list nat) :
  sample_pool pool k rnd ⊆+ pool.
Proof.
  revert pool rnd. induction k as [| k IH]; intros pool rnd; simpl.
  - apply submseteq_nil_l.
  - destruct (pool !! _) as [x |] eqn:Hx; [| apply submseteq_nil_l].
    destruct (last pool) as [y |] eqn:Hy; [| apply submseteq_nil_l].
    etrans; [apply submseteq_skip, IH|].
    by apply Permutation_submseteq, swap_remove_perm.
Qed.

Lemma sample_pool_length (k : nat) (pool : list T) (rnd : list nat) :
  (k ≤ length pool)%nat → length (sample_pool pool k rnd) = k.
Proof.
  revert pool rnd. induction k as [| k IH]; intros pool rnd Hk; simpl; [done|].
  assert (Hj : (hd 0%nat rnd `mod` length pool < length pool)%nat)
    by (apply Nat.mod_upper_bound; lia).
  destruct (lookup_lt_is_Some_2 pool _ Hj) as [x ->].
  destruct (last pool) as [y |] eqn:Hy.
  - simpl. f_equal. apply IH.
    rewrite length_take, length_insert. lia.
  - apply last_None in Hy. subst. simpl in Hk. lia.
Qed.

End SampleFacts.

Section ScatterFacts.

Context {R : Type}.

(** Row by row, the assignment replaces one entry of each addressed row and
    leaves the other rows alone. *)
Lemma scatter_spec (n : nat) (m : list (list R)) (k : nat) (cols : list Z)
    (vals : list R) :
  length cols = n → length vals = n →
  (∀ i a, cols !! i = Some a →
     ∃ row j, m !! (k + i)%nat = Some row ∧ np_index (length row) a = Ok j) →
  ∃ m',
    Agent.scatter m (seq k n) cols vals = Ok m'
    ∧ length m' = length m
    ∧ (∀ i, (i < k)%nat → m' !! i = m !! i)
    ∧ ∀ i a v row j,
        cols !! i = Some a → vals !! i = Some v →
        m !! (k + i)%nat = Some row → np_index (length row) a = Ok j →
        m' !! (k + i)%nat = Some (<[j := v]> row).
Proof.
  revert m k cols vals.
  induction n as [| n IH]; intros m k cols vals Hc Hv Hrows.
  - destruct cols, vals; try done. simpl. exists m.
    split_and!; [done | done | done |]. intros i a v row j Hi. done.
  - destruct cols as [| a cols], vals as [| v vals]; try done.
    simpl in Hc, Hv. simpl.
    destruct (Hrows 0%nat a eq_refl) as (row & j & Hrow & Hj).
    rewrite Nat.add_0_r in Hrow. rewrite Hrow.
    unfold mbind, result_bind. rewrite Hj. simpl.
    destruct (IH (<[k := <[j := v]> row]> m) (S k) cols vals)
      as (m' & Hm' & Hlen & Hlow & Hhigh); [lia | lia | |].
    { intros i a' Ha'. destruct (Hrows (S i) a' Ha') as (row' & j' & Hr' & Hj').
      exists row', j'. split; [|done].
      rewrite list_lookup_insert_ne by lia.
      by replace (S k + i)%nat with (k + S i)%nat by lia. }
    exists m'. split_and!.
    + done.
    + by rewrite Hlen, length_insert.
    + intros i Hi. rewrite Hlow by lia. by rewrite list_lookup_insert_ne by lia.
    + intros i a' v' row' j' Ha' Hv' Hr' Hj'.
      destruct i as [| i]; simpl in *.
      * injection Ha' as <-. injection Hv' as <-.
        rewrite Nat.add_0_r in *.
        assert (row' = row) as -> by congruence.
        assert (j' = j) as -> by congruence.
        rewrite Hlow by lia.
        apply list_lookup_insert_eq. by eapply lookup_lt_Some.
      * replace (k + S i)%nat with (S k + i)%nat in * by lia.
        apply (Hhigh i a' v' row' j' Ha' Hv'); [|done].
        by rewrite list_lookup_insert_ne by lia.
Qed.

End ScatterFacts.

Lemma np_index_total (n : nat) (a : Z) :
  - Z.of_nat n ≤ a < Z.of_nat n → ∃ j, np_index n a = Ok j ∧ (j < n)%nat.
Proof.
  intros Ha. unfold np_index.
  destruct (Z.leb_spec 0 a), (Z.ltb_spec a (Z.of_nat n)); simpl;
    try lia; [eexists; split; [done | lia] |].
  destruct (Z.leb_spec (- Z.of_nat n) a), (Z.ltb_spec a 0); simpl; try lia.
  eexists; split; [done | lia].
Qed.

Section UpdateFacts.

Context {R : Type} `{Num R} {obs weights internals : Type}.
Context (forward : @Agent.network weights internals → obs → list R).
Context (train_on_batch :
  @Agent.network weights internals → list obs → list (list R)
  → @Agent.network weights internals * R).

Abbreviation agent := (@Agent.DDQNAgent R obs weights internals).
Abbreviation experience_replay :=
  (Agent.experience_replay forward train_on_batch).

Lemma targets_of_length (self : agent) (minibatch : list Agent.transition)
    (targets : list R) :
  Agent.idx self = seq 0 (length minibatch) →
  Agent.targets_of forward self minibatch = Ok targets →
  length targets = length minibatch.
Proof.
  unfold Agent.transition in *. intros Hseq Ht.
  unfold Agent.targets_of, mbind, result_bind in Ht.
  destruct (mapM argmax _) as [best |] eqn:Hbest; simpl in Ht; [|done].
  destruct (Agent.gather_nd _ _ _) as [tq |] eqn:Hg; simpl in Ht; [|done].
  injection Ht as <-.
  assert (Hlb : length best = length minibatch).
  { apply mapM_ok_length in Hbest. rewrite Hbest.
    unfold Agent.predict_on_batch, Agent.next_states_of.
    by rewrite !length_map. }
  assert (Hlq : length tq = length minibatch).
  { unfold Agent.gather_nd in Hg. destruct (negb _); [done|].
    apply mapM_ok_length in Hg. rewrite Hg, length_zip_with, Hseq.
    rewrite length_seq. lia. }
  rewrite !length_zip_with. unfold Agent.rewards_of, Agent.not_done_of.
  rewrite !length_map. lia.
Qed.

(** X8.  A learning update, for an agent whose [idx] is the range of its
    batch size, whose buffer holds at least a batch (of one transition or
    more), and whose networks give [width] action-values for the states in
    the buffer, the stored actions being indices of such rows.  The
    mini-batch is [batch_size] transitions drawn from the buffer without
    replacement; the regression matrix has one row per sample, which is the
    online network's row for the sample's state with the entry of the action
    taken replaced by the sample's target; the online network is replaced by
    the one trained on that matrix, its loss is recorded, and the call
    returns normally unless [tau] is zero. *)
Theorem learning_update (rnd : list nat) (self : agent) (width : nat) :
  Agent.idx self = Agent.tf_range (Agent.batch_size self) →
  1 ≤ Agent.batch_size self ≤ Deque.len (Agent.experience self) →
  Forall (well_shaped forward self width) (items (Agent.experience self)) →
  ∃ minibatch targets y,
    minibatch ⊆+ items (Agent.experience self)
    ∧ length minibatch = Z.to_nat (Agent.batch_size self)
    ∧ Agent.targets_of forward self minibatch = Ok targets
    ∧ length y = length minibatch
    ∧ (∀ i s a r s' nd, minibatch !! i = Some (s, a, r, s', nd) →
         ∃ j target,
           np_index width a = Ok j
           ∧ targets !! i = Some target
           ∧ y !! i =
               Some (<[j := target]> (forward (Agent.online_network self) s)))
    ∧ let trained :=
        train_on_batch (Agent.online_network self)
          (Agent.states_of minibatch) y in
      let self' := (experience_replay rnd self).2 in
      Agent.online_network self' = trained.1
      ∧ Agent.losses self' = Agent.losses self ++ [trained.2]
      ∧ (experience_replay rnd self).1 =
          (if Agent.tau self =? 0 then Raise ZeroDivisionError else Ok tt).
Proof.
  unfold Agent.transition in *.
  intros Hidx Hbs Hshape. unfold Deque.len in Hbs.
  remember (sample_pool (items (Agent.experience self))
              (Z.to_nat (Agent.batch_size self)) rnd) as mb eqn:Hmbdef.
  assert (Hsub : mb ⊆+ items (Agent.experience self))
    by (subst mb; apply sample_pool_submseteq).
  assert (Hlen : length mb = Z.to_nat (Agent.batch_size self)).
  { subst mb. apply sample_pool_length. unfold Agent.transition in *. lia. }
  assert (Hseq : Agent.idx self = seq 0 (length mb))
    by (by rewrite Hlen, Hidx).
  assert (Hmb : Forall (well_shaped forward self width) mb).
  { apply Forall_forall. intros t Ht.
    apply (proj1 (Forall_forall _ _) Hshape).
    by eapply elem_of_submseteq. }
  assert (Hwidth : (0 < width)%nat).
  { destruct mb as [| [[[[s a] r] s'] nd] mb']; [simpl in Hlen; lia|].
    apply Forall_cons_1 in Hmb as [(_ & _ & _ & Ha) _]. lia. }
  destruct (targets_of_total forward self mb Hseq) as [targets Ht].
  { eapply Forall_impl; [exact Hmb|].
    intros [[[[s a] r] s'] nd] (_ & Hon & Htg & _). simpl.
    split; [| lia]. intros Hnil. rewrite Hnil in Hon. simpl in Hon. lia. }
  pose proof (targets_of_length self mb targets Hseq Ht) as Htl.
  destruct (scatter_spec (length mb)
              (Agent.predict_on_batch forward (Agent.online_network self)
                 (Agent.states_of mb))
              0 (Agent.actions_of mb) targets)
    as (y & Hy & Hylen & _ & Hrows).
  { unfold Agent.actions_of. by rewrite length_map. }
  { done. }
  { intros i a Ha. unfold Agent.actions_of in Ha.
    assert (Hlt : (i < length mb)%nat).
    { apply lookup_lt_Some in Ha. by rewrite length_map in Ha. }
    destruct (lookup_lt_is_Some_2 mb i Hlt) as [[[[[s a'] r] s'] nd] Hi].
    rewrite lookup_map in Ha. unfold Agent.transition in *.
    rewrite Hi in Ha. simpl in Ha. injection Ha as <-.
    destruct (Forall_lookup_1 _ _ _ _ Hmb Hi) as (Hs & _ & _ & Hrange).
    destruct (np_index_total width a' Hrange) as (j & Hj & _).
    exists (forward (Agent.online_network self) s), j. split.
    - unfold Agent.predict_on_batch, Agent.states_of.
      rewrite !lookup_map. unfold Agent.transition in *.
      change (0 + i)%nat with i. by rewrite Hi.
    - by rewrite Hs. }
  exists mb, targets, y.
  split; [done|]. split; [done|]. split; [done|]. split; [|split].
  - rewrite Hylen. unfold Agent.predict_on_batch, Agent.states_of.
    by rewrite !length_map.
  - intros i s a r s' nd Hi.
    destruct (Forall_lookup_1 _ _ _ _ Hmb Hi) as (Hs & _ & _ & Hrange).
    destruct (np_index_total width a Hrange) as (j & Hj & _).
    destruct (lookup_lt_is_Some_2 targets i) as [target Htg].
    { rewrite Htl. by eapply lookup_lt_Some. }
    exists j, target. split_and!; [done | done |].
    apply (Hrows i a target); [| done | | by rewrite Hs].
    + unfold Agent.actions_of. rewrite lookup_map.
      unfold Agent.transition in *. by rewrite Hi.
    + unfold Agent.predict_on_batch, Agent.states_of.
      rewrite !lookup_map. unfold Agent.transition in *.
      change (0 + i)%nat with i. by rewrite Hi.
  - unfold Agent.experience_replay.
    destruct (Agent.batch_size self >? Deque.len (Agent.experience self))
      eqn:Hgt.
    { apply Z.gtb_lt in Hgt. unfold Deque.len, Agent.transition in *. lia. }
    unfold sample.
    destruct ((0 <=? Agent.batch_size self) && _) eqn:Hrange.
    2: { apply andb_false_iff in Hrange as [Hr | Hr]; apply Z.leb_gt in Hr;
         unfold Deque.len, Agent.transition in *; lia. }
    unfold Agent.transition in *. rewrite <- Hmbdef.
    destruct mb as [| t mb']; [simpl in Hlen; lia|].
    rewrite Ht. rewrite Hseq, Hy.
    destruct (train_on_batch _ _ _) as [online loss]. simpl.
    clear. destruct self; simpl.
    destruct (tau =? 0); [done|].
    by destruct (_ =? 0).
Qed.

End UpdateFacts.

(** ** What changes the networks *)

Section NetworkFacts.

Context {R : Type} `{Num R} {obs weights internals : Type}.
Context (forward : @Agent.network weights internals → obs → list R).
Context (train_on_batch :
  @Agent.network weights internals → list obs → list (list R)
  → @Agent.network weights internals * R).
Context (build_model :
  Z → Z → list Z → R → R → bool → @Agent.network weights internals).

Abbreviation agent := (@Agent.DDQNAgent R obs weights internals).
Abbreviation run := (Agent.run forward train_on_batch).
Abbreviation step := (Agent.step forward train_on_batch).

Lemma step_losses (self : agent) (c : Agent.call) :
  ∃ ls,
    Agent.losses (step self c) = Agent.losses self ++ ls
    ∧ (ls = [] →
         Agent.online_network (step self c) = Agent.online_network self
         ∧ Agent.target_network (step self c) = Agent.target_network self).
Proof.
  destruct c as [state u c | s a r s' nd | rnd]; simpl.
  - pose proof (epsilon_greedy_policy_frame forward state u c self) as Hf.
    simpl in Hf. rewrite Hf. exists []. rewrite app_nil_r. by destruct self.
  - destruct (memorize_transition_frame s a r s' nd self)
      as (Hon & Htg & Hlo & _).
    exists []. by rewrite app_nil_r.
  - unfold Agent.experience_replay.
    repeat (match goal with
            | |- context [if ?b then _ else _] => destruct b
            | |- context [match ?x with _ => _ end] => destruct x
            end;
            try (exists []; by rewrite app_nil_r)).
    all: destruct self; simpl; eexists [_]; split; done.
Qed.

Lemma run_losses (self : agent) (calls : list Agent.call) :
  ∃ ls,
    Agent.losses (run self calls) = Agent.losses self ++ ls
    ∧ (ls = [] →
         Agent.online_network (run self calls) = Agent.online_network self
         ∧ Agent.target_network (run self calls) = Agent.target_network self).
Proof.
  induction calls as [| c calls (ls & Hls & Hsame)] using rev_ind.
  - exists []. by rewrite app_nil_r.
  - rewrite (run_snoc forward train_on_batch).
    destruct (step_losses (run self calls) c) as (ls' & Hls' & Hsame').
    exists (ls ++ ls'). split.
    + by rewrite Hls', Hls, app_assoc.
    + intros Hnil. apply app_eq_nil in Hnil as [-> ->].
      destruct (Hsame eq_refl) as [Hon Htg].
      destruct (Hsame' eq_refl) as [Hon' Htg'].
      split; congruence.
Qed.

(** X9.  The networks change only in a learning update, which records a
    loss: as long as the losses of a constructed agent are empty its two
    networks are the ones it was built with, and the target network carries
    the online network's weights. *)
Theorem networks_until_first_loss
    (sd na : Z) (lr g es ee : R) (eds : Z) (eed : R) (cap : Z)
    (arch : list Z) (l2 : R) (tau bs : Z)
    (self0 : agent) (calls : list Agent.call) :
  Agent.__init__ build_model sd na lr g es ee eds eed cap arch l2 tau bs
    = Ok self0 →
  Agent.losses (run self0 calls) = [] →
  Agent.online_network (run self0 calls) = build_model sd na arch l2 lr true
  ∧ Agent.get_weights (Agent.target_network (run self0 calls)) =
      Agent.get_weights (Agent.online_network (run self0 calls))
  ∧ Agent.net_internals (Agent.target_network (run self0 calls)) =
      Agent.net_internals (build_model sd na arch l2 lr false).
Proof.
  intros Hinit Hnone. unfold Agent.__init__ in Hinit.
  destruct (cap <? 0); [done|]. destruct (eds =? 0); [done|].
  injection Hinit as <-.
  match goal with
  | H : Agent.losses (run ?a calls) = [] |- _ => set (self0 := a) in *
  end.
  destruct (run_losses self0 calls) as (ls & Hls & Hsame).
  rewrite Hnone in Hls. simpl in Hls. subst ls.
  destruct (Hsame eq_refl) as [-> ->]. done.
Qed.

End NetworkFacts.

(** ** Rewards, in exact arithmetic *)

Section RewardFacts.

Context {obs weights internals : Type}.
Context (forward : @Agent.network weights internals → obs → list Qc).
Context (train_on_batch :
  @Agent.network weights internals → list obs → list (list Qc)
  → @Agent.network weights internals * Qc).

Abbreviation agent := (@Agent.DDQNAgent Qc obs weights internals).
Abbreviation run := (Agent.run forward train_on_batch).

Lemma sumQc_app (l k : list Qc) : sumQc (l ++ k) = (sumQc l + sumQc k)%Qc.
Proof.
  induction l as [| x l IH]; simpl.
  - ring.
  - rewrite IH. ring.
Qed.

(** X10.  The entries of [rewards_history] and the running [episode_reward]
    add up to the rewards of the recorded transitions that continue an
    episode: the reward of a transition that ends an episode enters
    neither. *)
Theorem rewards_accounted (self : agent) (calls : list Agent.call) :
  let self' := run self calls in
  (sumQc (Agent.rewards_history self') + Agent.episode_reward self')%Qc
  = (sumQc (Agent.rewards_history self) + Agent.episode_reward self
     + sumQc (continuing_rewards calls))%Qc.
Proof.
  induction calls as [| c calls IH] using rev_ind; simpl.
  - ring.
  - rewrite (run_snoc forward train_on_batch).
    destruct (step_counters forward train_on_batch (run self calls) c)
      as (_ & _ & Hr & _ & _ & He).
    rewrite Hr, He, sumQc_app.
    unfold continuing_rewards in *.
    rewrite omap_app, sumQc_app, Qcplus_assoc, <- IH.
    destruct c as [state u c | s a r s' nd | rnd]; simpl.
    + ring.
    + destruct (negb (Qeq_bool nd 0)); simpl;
        change (inject_Z 0) with 0%Q; ring.
    + ring.
Qed.

End RewardFacts.

(** ** More on the pandas helpers *)

Lemma chars_append (a b : string) :
  chars (String.append a b) = chars a ++ chars b.
Proof. induction a as [| c a IH]; simpl; [done|]. by rewrite IH. Qed.

Lemma lstrip_chars_id (l : list ascii) :
  (∀ c, head l = Some c → Frame.isspace c = false) →
  Frame.lstrip_chars l = l.
Proof.
  destruct l as [| c l]; [done|]. intros Hhd. simpl.
  by rewrite (Hhd c eq_refl).
Qed.

Lemma lstrip_chars_blank (pre l : list ascii) :
  blank pre → Frame.lstrip_chars (pre ++ l) = Frame.lstrip_chars l.
Proof.
  induction 1 as [| c pre Hc _ IH]; simpl; [done|]. by rewrite Hc.
Qed.

Lemma strip_chars_id (l : list ascii) :
  (∀ c, head l = Some c → Frame.isspace c = false) →
  (∀ c, last l = Some c → Frame.isspace c = false) →
  Frame.strip_chars l = l.
Proof.
  intros Hhd Hlast. unfold Frame.strip_chars.
  rewrite (lstrip_chars_id l Hhd).
  rewrite lstrip_chars_id; [by rewrite reverse_involutive|].
  intros c Hc. apply Hlast. by rewrite <- head_reverse.
Qed.

Lemma strip_chars_blank_l (pre l : list ascii) :
  blank pre → Frame.strip_chars (pre ++ l) = Frame.strip_chars l.
Proof.
  intros Hpre. unfold Frame.strip_chars. by rewrite lstrip_chars_blank.
Qed.

Lemma strip_chars_blank_r (l post : list ascii) :
  blank post → Frame.strip_chars (l ++ post) = Frame.strip_chars l.
Proof.
  intros Hpost.
  destruct (lstrip_chars_spec l) as (pre & Hl & Hpre & Hhd).
  destruct (decide (Frame.lstrip_chars l = [])) as [Hnil | Hne].
  - (* everything is blank *)
    assert (Hall : blank (l ++ post)).
    { rewrite Hl, Hnil, app_nil_r. by apply Forall_app. }
    assert (Hl' : blank l) by (by apply Forall_app in Hall as [? _]).
    unfold Frame.strip_chars.
    rewrite <- (app_nil_r (l ++ post)), lstrip_chars_blank by done.
    rewrite <- (app_nil_r l), lstrip_chars_blank by done.
    done.
  - unfold Frame.strip_chars.
    assert (Hlp : Frame.lstrip_chars (l ++ post) = Frame.lstrip_chars l ++ post).
    { rewrite Hl at 1. rewrite <- app_assoc, lstrip_chars_blank by done.
      apply lstrip_chars_id. intros c Hc. apply Hhd.
      destruct (Frame.lstrip_chars l); [done | done]. }
    rewrite Hlp, reverse_app.
    by rewrite lstrip_chars_blank by (by apply Forall_reverse).
Qed.

(** X11.  The flat label of a two-level label whose levels carry no
    surrounding blanks: the two levels joined by one space, or the other
    level alone when one of them is empty. *)
Theorem flat_label_two_levels (a b : string) :
  clean a → clean b →
  Frame.flat_label (Frame.Levels [a; b]) =
    if decide (b = EmptyString) then a
    else if decide (a = EmptyString) then b
    else String.append a (String.append " " b).
Proof.
  intros [Ha1 Ha2] [Hb1 Hb2]. unfold Frame.flat_label, Frame.strip.
  cbn [Frame.parts_of Frame.join].
  rewrite !chars_append. change (chars " ") with [" "%char].
  assert (Hsp : blank [" "%char]) by (by repeat constructor).
  destruct (decide (b = EmptyString)) as [-> | Hb].
  - change (chars "") with (@nil ascii). rewrite app_nil_r.
    rewrite strip_chars_blank_r by done.
    rewrite strip_chars_id by done. apply string_of_list_ascii_of_string.
  - destruct (decide (a = EmptyString)) as [-> | Ha].
    + change (chars "") with (@nil ascii). rewrite app_nil_l.
      rewrite strip_chars_blank_l by done.
      rewrite strip_chars_id by done. apply string_of_list_ascii_of_string.
    + rewrite strip_chars_id.
      * change [" "%char] with (chars " ").
        rewrite <- !chars_append.
        apply string_of_list_ascii_of_string.
      * intros c Hc. apply Ha1. destruct a; [done | done].
      * intros c Hc. apply Hb2.
        rewrite !app_assoc in Hc. rewrite last_app in Hc.
        destruct (last (chars b)) as [c' |] eqn:Hlb; [done|].
        apply last_None in Hlb. destruct b; done.
Qed.

Lemma chars_join_singles (l : list ascii) :
  chars (Frame.join " " (map (λ c, String c EmptyString) l)) = spaced l.
Proof.
  induction l as [| c [| c' l] IH]; [done | done |].
  change (spaced (c :: c' :: l)) with (c :: " "%char :: spaced (c' :: l)).
  rewrite <- IH. done.
Qed.

Lemma spaced_head_last (l : list ascii) :
  head (spaced l) = head l ∧ last (spaced l) = last l.
Proof.
  induction l as [| c [| c' l] [IHh IHl]]; [done | done |].
  split; [done|].
  change (spaced (c :: c' :: l)) with (c :: " "%char :: spaced (c' :: l)).
  destruct (spaced (c' :: l)) as [| x xs] eqn:Hs; [done|].
  change (last (c :: " "%char :: x :: xs)) with (last (x :: xs)).
  by rewrite IHl.
Qed.

Lemma spaced_length (l : list ascii) :
  length (spaced l) = (2 * length l - 1)%nat.
Proof.
  induction l as [| c [| c' l] IH]; [done | done |].
  change (spaced (c :: c' :: l)) with (c :: " "%char :: spaced (c' :: l)).
  simpl in *. lia.
Qed.

(** X12.  [flatten_cols] is for tuple labels.  On a label that is already a
    string (without surrounding blanks) it puts a space between every two
    characters, so a label of [n] characters comes out with [2n - 1]
    characters, and different from what it was whenever [n] is at least 2:
    flattening twice is not flattening once. *)
Theorem flat_label_of_string (s : string) :
  clean s →
  chars (Frame.flat_label (Frame.Flat s)) = spaced (chars s)
  ∧ length (chars (Frame.flat_label (Frame.Flat s))) =
      (2 * length (chars s) - 1)%nat
  ∧ ((2 ≤ length (chars s))%nat → Frame.flat_label (Frame.Flat s) ≠ s).
Proof.
  intros [Hhd Hlast].
  assert (Heq : chars (Frame.flat_label (Frame.Flat s)) = spaced (chars s)).
  { unfold Frame.flat_label, Frame.strip. cbn [Frame.parts_of].
    rewrite list_ascii_of_string_of_list_ascii, chars_join_singles.
    destruct (spaced_head_last (chars s)) as [Hh Hl].
    apply strip_chars_id; intros c Hc; [apply Hhd | apply Hlast]; congruence. }
  split; [done|]. split; [by rewrite Heq, spaced_length|].
  intros Hlen Hsame. rewrite Hsame in Heq.
  apply (f_equal length) in Heq. rewrite spaced_length in Heq. lia.
Qed.

Section MaskFacts.

Context {V : Type}.

Abbreviation frame := (@Frame.DataFrame V).









End MaskFacts.

(** ** More on the results table *)

Lemma roll_sum_length (w : nat) (win : list Z) (sum_x : Z) (values : list Z) :
  length (Results.roll_sum w win sum_x values) = length values.
Proof.
  revert win sum_x. induction values as [| v rest IH]; intros win sum_x.
  - done.
  - cbn [Results.roll_sum].
    destruct (w <=? length win)%nat; simpl; by rewrite IH.
Qed.

Lemma sumZ_bounds (l : list Z) :
  Forall (λ x, 0 ≤ x ≤ 1) l → 0 ≤ sumZ l ≤ Z.of_nat (length l).
Proof.
  induction 1 as [| x l Hx _ IH]; [simpl; lia|].
  change (sumZ (x :: l)) with (x + sumZ l).
  rewrite length_cons, Nat2Z.inj_succ. lia.
Qed.

Lemma lastn_Forall {A : Type} (P : A → Prop) (w : nat) (l : list A) :
  Forall P l → Forall P (lastn w l).
Proof. apply Forall_drop. Qed.

Lemma lastn_map {A B : Type} (f : A → B) (w : nat) (l : list A) :
  lastn w (map f l) = map f (lastn w l).
Proof.
  unfold lastn. rewrite length_map.
  change (map f) with (fmap (M := list) f). by rewrite fmap_drop.
Qed.

Section TableShape.

Context {R : Type} `{Num R}.

Abbreviation bit := (λ d : R, if Results.positive d then 1 else 0).

Lemma bits_Forall (l : list R) : Forall (λ x, 0 ≤ x ≤ 1) (map bit l).
Proof.
  induction l as [| d l IH]; constructor; [|done].
  destruct (Results.positive d); lia.
Qed.

(** X15.  The results table is built exactly when the three lists have one
    entry per episode.  Its five columns then have one row per episode, the
    Strategy Wins column is empty in its first 99 rows and lies between 0
    and 100 below them, and from one row to the next it moves by at most
    one. *)
Theorem results_table_shape (episode : Z) (navs market_navs diffs : list R) :
  match Results.results episode navs market_navs diffs with
  | Raise e =>
      e = ValueError
      ∧ ¬ (length navs = Z.to_nat episode
           ∧ length market_navs = Z.to_nat episode
           ∧ length diffs = Z.to_nat episode)
  | Ok t =>
      length (Results.Episode t) = Z.to_nat episode
      ∧ length (Results.Agent t) = Z.to_nat episode
      ∧ length (Results.Market t) = Z.to_nat episode
      ∧ length (Results.Difference t) = Z.to_nat episode
      ∧ length (Results.Strategy_Wins t) = Z.to_nat episode
      ∧ (∀ i, (i < 99)%nat → (i < Z.to_nat episode)%nat →
           Results.Strategy_Wins t !! i = Some None)
      ∧ (∀ i w, Results.Strategy_Wins t !! i = Some (Some w) →
           (99 ≤ i)%nat ∧ 0 ≤ w ≤ 100
           ∧ ∀ w', Results.Strategy_Wins t !! S i = Some (Some w') →
               -1 ≤ w' - w ≤ 1)
  end.
Proof.
  unfold Results.results, Results.episode_index.
  rewrite length_map, length_seq.
  destruct (Nat.eqb_spec (length navs) (Z.to_nat episode)) as [Hn | Hn];
    [| simpl; split; [done | tauto]].
  destruct (Nat.eqb_spec (length market_navs) (Z.to_nat episode))
    as [Hm | Hm]; [| simpl; split; [done | tauto]].
  destruct (Nat.eqb_spec (length diffs) (Z.to_nat episode)) as [Hd | Hd];
    [| simpl; split; [done | tauto]].
  simpl. rewrite length_map, length_seq.
  unfold Results.strategy_wins, Results.rolling_sum at 1.
  rewrite roll_sum_length, length_map.
  split_and!; try done.
  - intros i Hi Hlt.
    rewrite rolling_sum_lookup by (rewrite ?length_map; lia).
    by destruct (Nat.ltb_spec (S i) 100); [| lia].
  - intros i w Hw.
    assert (Hi : (i < length diffs)%nat).
    { apply lookup_lt_Some in Hw. unfold Results.rolling_sum in Hw.
      by rewrite roll_sum_length, length_map in Hw. }
    rewrite rolling_sum_lookup in Hw by (rewrite ?length_map; lia).
    destruct (Nat.ltb_spec (S i) 100) as [| Hge]; [done|].
    injection Hw as <-.
    set (v := map bit diffs) in *.
    assert (Hv : Forall (λ x, 0 ≤ x ≤ 1) v) by apply bits_Forall.
    assert (Hb : ∀ k, 0 ≤ sumZ (lastn 100 (take k v)) ≤ 100).
    { intros k.
      pose proof (sumZ_bounds (lastn 100 (take k v))
                    (lastn_Forall _ _ _ (Forall_take _ _ _ Hv))) as Hs.
      rewrite lastn_length in Hs. lia. }
    split; [lia|]. split; [apply Hb|].
    intros w' Hw'.
    assert (Hi' : (S i < length diffs)%nat).
    { apply lookup_lt_Some in Hw'. unfold Results.rolling_sum in Hw'.
      by rewrite roll_sum_length in Hw'; unfold v in Hw';
        rewrite length_map in Hw'. }
    rewrite rolling_sum_lookup in Hw' by (unfold v; rewrite ?length_map; lia).
    destruct (Nat.ltb_spec (S (S i)) 100); [done|].
    injection Hw' as <-.
    destruct (lookup_lt_is_Some_2 v (S i)) as [x Hx];
      [unfold v; rewrite length_map; lia|].
    rewrite (take_S_r v (S i) x Hx).
    rewrite <- (lastn_snoc 100 (take (S i) v) x) by lia.
    pose proof (Forall_lookup_1 _ _ _ _ Hv Hx) as Hx01. simpl in Hx01.
    set (pre := lastn 100 (take (S i) v)).
    assert (Hpre : Forall (λ x, 0 ≤ x ≤ 1) pre)
      by (apply lastn_Forall, Forall_take, Hv).
    destruct (100 <=? length pre)%nat.
    + rewrite sumZ_app, sumZ_drop1. simpl.
      assert (0 ≤ hd 0 pre ≤ 1).
      { destruct pre as [| y pre']; simpl; [lia|].
        by apply Forall_cons_1 in Hpre as [? _]. }
      lia.
    + rewrite sumZ_app. simpl. lia.
Qed.

(** X16.  Once a hundred episodes are done, the share of wins that the
    progress line of the training loop shows is the Strategy Wins value of
    the last row of the results table, divided by 100. *)
Theorem win_ratio_is_last_strategy_wins (episode : Z)
    (navs market_navs diffs : list R) (t : Results.table) :
  Results.results episode navs market_navs diffs = Ok t →
  (100 ≤ length diffs)%nat →
  ∃ w, Results.Strategy_Wins t !! (length diffs - 1)%nat = Some (Some w)
       ∧ win_ratio diffs = (of_Z w / of_Z 100)%py.
Proof.
  intros Hres Hlen. unfold Results.results in Hres.
  destruct (_ && _); [|done]. injection Hres as <-. simpl.
  unfold Results.strategy_wins.
  rewrite rolling_sum_lookup by (rewrite ?length_map; lia).
  destruct (Nat.ltb_spec (S (length diffs - 1)) 100); [lia|].
  eexists. split; [done|].
  replace (S (length diffs - 1)) with (length (map bit diffs))
    by (rewrite length_map; lia).
  rewrite firstn_all, lastn_map, sumZ_bits.
  unfold win_ratio. by replace (length diffs `min` 100)%nat with 100%nat by lia.
Qed.

End TableShape.

(** ** The training loop *)

Section DriverFacts.

Context {R : Type} `{Num R} {obs weights internals env : Type}.
Context (forward : @Agent.network weights internals → obs → list R).
Context (train_on_batch :
  @Agent.network weights internals → list obs → list (list R)
  → @Agent.network weights internals * R).
Context (reset : env → env * obs).
Context (env_step : env → Z → env * (obs * R * bool)).
Context (final : env → R * R * R).
Context (draws : nat → nat → R * Z * list nat).

Abbreviation agent := (@Agent.DDQNAgent R obs weights internals).
Abbreviation episode_steps :=
  (Driver.episode_steps forward train_on_batch env_step draws).
Abbreviation episodes_from :=
  (Driver.episodes_from forward train_on_batch reset env_step final draws).
Abbreviation training :=
  (Driver.training forward train_on_batch reset env_step final draws).

(** X17.  One episode of the training loop and the agent's counters, when
    no call raises.  If the environment reports [done] in step [steps], the
    agent counts one more episode and records [steps - 1] more steps for
    it.  If the loop runs out of [max_episode_steps] first, the agent counts
    no episode and records nothing: the steps stay in its running
    [episode_length], and are added to the next episode. *)
Theorem episode_steps_counters (n k j : nat) (e e' : env) (s : obs)
    (a a' : agent) (b : bool) :
  truthy (of_Z 0) = false → truthy (of_Z 1) = true →
  episode_steps n k j e s a = (Ok b, (e', a')) →
  ∃ steps : nat,
    (steps ≤ n)%nat
    ∧ Agent.total_steps a' = Agent.total_steps a + Z.of_nat steps
    ∧ if b
      then (1 ≤ steps)%nat
           ∧ Agent.episodes a' = Agent.episodes a + 1
           ∧ Agent.steps_per_episode a' =
               Agent.steps_per_episode a
                 ++ [Agent.episode_length a + Z.of_nat (steps - 1)]
           ∧ Agent.episode_length a' = 0
      else steps = n
           ∧ Agent.episodes a' = Agent.episodes a
           ∧ Agent.steps_per_episode a' = Agent.steps_per_episode a
           ∧ Agent.rewards_history a' = Agent.rewards_history a
           ∧ Agent.episode_length a' = Agent.episode_length a + Z.of_nat n.
Proof.
  intros H0 H1. revert j e s a.
  induction n as [| n IH]; intros j e s a Hrun; simpl in Hrun.
  - injection Hrun as <- <- <-. exists 0%nat. rewrite app_nil_r || idtac.
    split_and!; done || lia.
  - destruct (draws k j) as [[u c] rnd].
    destruct (step_counters forward train_on_batch a (Agent.Act s u c))
      as (At & Ae & Ar & As & Al & _).
    simpl in At, Ae, Ar, As, Al. rewrite app_nil_r in Ar, As.
    destruct (Agent.epsilon_greedy_policy forward s u c a)
      as [[action | x] a1]; [|done].
    simpl in At, Ae, Ar, As, Al.
    destruct (env_step e action) as [e1 [[next_state reward] done]].
    set (nd := if done then of_Z 0 else of_Z 1) in *.
    destruct (step_counters forward train_on_batch a1
                (Agent.Memorize s action reward next_state nd))
      as (Mt & Me & Mr & Ms & Ml & _).
    simpl in Mt, Me, Mr, Ms, Ml.
    set (a2 := Agent.memorize_transition s action reward next_state nd a1)
      in *.
    assert (Hnd : truthy nd = negb done) by (unfold nd; by destruct done).
    rewrite Hnd in Me, Mr, Ms, Ml.
    destruct (step_counters forward train_on_batch a2 (Agent.Replay rnd))
      as (Rt & Re & Rr & Rs & Rl & _).
    simpl in Rt, Re, Rr, Rs, Rl. rewrite app_nil_r in Rr, Rs.
    assert (Hrep : ∃ r a3,
      (if Agent.train a2
       then Agent.experience_replay forward train_on_batch rnd a2
       else (Ok tt, a2)) = (r, a3)
      ∧ Agent.total_steps a3 = Agent.total_steps a2
      ∧ Agent.episodes a3 = Agent.episodes a2
      ∧ Agent.rewards_history a3 = Agent.rewards_history a2
      ∧ Agent.steps_per_episode a3 = Agent.steps_per_episode a2
      ∧ Agent.episode_length a3 = Agent.episode_length a2).
    { destruct (Agent.train a2).
      - destruct (Agent.experience_replay forward train_on_batch rnd a2)
          as [r a3]. exists r, a3. simpl in *. split_and!; done || lia.
      - exists (Ok tt), a2. split_and!; done || lia. }
    destruct Hrep as (r & a3 & Hrep & Tt & Te & Tr & Ts & Tl).
    rewrite Hrep in Hrun. clear Hrep.
    destruct r as [[] | x]; [|done].
    destruct done; simpl in *.
    + injection Hrun as <- <- <-. exists 1%nat.
      rewrite Tt, Te, Ts, Tl, Mt, Me, Ms, Ml, At, Ae, As, Al.
      split_and!; try lia; try done.
      change (Z.of_nat (1 - 1)) with 0. by rewrite Z.add_0_r.
    + destruct (IH _ _ _ _ Hrun) as (steps & Hle & Ht & Hb).
      exists (S steps). split; [lia|]. split; [lia|].
      rewrite app_nil_r in Mr, Ms.
      destruct b.
      * destruct Hb as (Hs1 & He & Hs & Hl). split_and!; [lia | lia | | done].
        rewrite Hs, Ts, Ms, As, Tl, Ml, Al. do 2 f_equal. lia.
      * destruct Hb as (-> & He & Hs & Hr & Hl).
        split_and!; [done | lia | congruence | congruence | lia].
Qed.

Lemma stop_spec (diffs : list R) :
  Driver.stop diffs = true ↔
    (25 < length diffs)%nat
    ∧ Forall (λ d, Results.positive d = true) (lastn 25 diffs).
Proof.
  unfold Driver.stop. rewrite andb_true_iff, Nat.ltb_lt.
  assert (Hall : ∀ l : list R,
            forallb Results.positive l = true
            ↔ Forall (λ d, Results.positive d = true) l).
  { induction l as [| d l IH]; simpl; [by split|].
    rewrite andb_true_iff, Forall_cons, IH. done. }
  by rewrite Hall.
Qed.

Lemma episodes_from_inv (mes n first : nat) (st st' : Driver.locals) :
  episodes_from mes n first st = (Ok tt, st') →
  length (Driver.navs st) = length (Driver.diffs st) →
  length (Driver.market_navs st) = length (Driver.diffs st) →
  Driver.diffs st = zip_with sub (Driver.navs st) (Driver.market_navs st) →
  first = S (length (Driver.diffs st)) →
  (n = 0%nat ∧ st' = st)
  ∨ ((length (Driver.diffs st) < length (Driver.diffs st')
      ≤ length (Driver.diffs st) + n)%nat
     ∧ Driver.episode st' = length (Driver.diffs st')
     ∧ length (Driver.navs st') = length (Driver.diffs st')
     ∧ length (Driver.market_navs st') = length (Driver.diffs st')
     ∧ Driver.diffs st' =
         zip_with sub (Driver.navs st') (Driver.market_navs st')
     ∧ ((length (Driver.diffs st') < length (Driver.diffs st) + n)%nat →
          Driver.stop (Driver.diffs st') = true)
     ∧ (∀ i, (length (Driver.diffs st) < i < length (Driver.diffs st'))%nat →
          Driver.stop (take i (Driver.diffs st')) = false)
     ∧ take (length (Driver.diffs st)) (Driver.diffs st') = Driver.diffs st).
Proof.
  revert first st.
  induction n as [| n IH]; intros first st Hrun Hn Hm Hd Hfirst;
    simpl in Hrun.
  - left. by injection Hrun as <-.
  - right.
    destruct (reset (Driver.trading_environment st)) as [e0 s0].
    destruct (episode_steps mes first 0 e0 s0 (Driver.ddqn st))
      as [[b | x] [e1 a1]]; [|done].
    destruct (final e1) as [[final_nav strategy_return] market_nav].
    set (nav := (final_nav * (of_Z 1 + strategy_return))%py) in *.
    set (st1 := {| Driver.ddqn := a1; Driver.trading_environment := e1;
                   Driver.navs := Driver.navs st ++ [nav];
                   Driver.market_navs := Driver.market_navs st ++ [market_nav];
                   Driver.diffs := Driver.diffs st ++ [(nav - market_nav)%py];
                   Driver.episode := first |}) in *.
    assert (Hlen1 : length (Driver.diffs st1) = S (length (Driver.diffs st)))
      by (simpl; rewrite length_app; simpl; lia).
    assert (Hn1 : length (Driver.navs st1) = length (Driver.diffs st1))
      by (simpl; rewrite !length_app; simpl; lia).
    assert (Hm1 : length (Driver.market_navs st1) = length (Driver.diffs st1))
      by (simpl; rewrite !length_app; simpl; lia).
    assert (Hd1 : Driver.diffs st1 =
                  zip_with sub (Driver.navs st1) (Driver.market_navs st1)).
    { simpl. rewrite zip_with_app by lia. by rewrite <- Hd. }
    assert (Hpre : take (length (Driver.diffs st)) (Driver.diffs st1)
                   = Driver.diffs st)
      by (simpl; by rewrite take_app_length).
    change (Driver.diffs st ++ [(nav - market_nav)%py])
      with (Driver.diffs st1) in Hrun.
    destruct (Driver.stop (Driver.diffs st1)) eqn:Hstop.
    + injection Hrun as <-.
      split_and!;
        first [done | lia | intros; lia
              | change (Driver.episode st1) with first; lia].
    + destruct (IH (S first) st1 Hrun Hn1 Hm1 Hd1) as
        [[-> ->] | (Hl & He & Hn' & Hm' & Hd' & Hs' & Hno & Hpre')];
        [lia | |].
      * split_and!;
          first [done | lia | intros; lia
                | change (Driver.episode st1) with first; lia].
      * split_and!; try done; try lia.
        -- intros Hlt. apply Hs'. lia.
        -- intros i Hi.
           destruct (decide (i = length (Driver.diffs st1))) as [-> | Hne].
           ++ by rewrite Hpre'.
           ++ apply Hno. lia.
        -- rewrite <- Hpre at 2. rewrite <- Hpre'.
           rewrite take_take. f_equal. lia.
Qed.

(** X18.  When the training loop ends without an exception, after at least
    one episode: [navs], [market_navs] and [diffs] have one entry for each
    episode run, [diffs] is their difference entry by entry, and the results
    table can be built from them.  The loop ran all [max_episodes] episodes
    unless more than 25 were run and the last 25 differences are positive,
    and it stopped at the first episode where that held. *)
Theorem training_loop_lists (max_episodes max_episode_steps : nat) (a : agent)
    (e : env) (st : Driver.locals) :
  (1 ≤ max_episodes)%nat →
  training max_episodes max_episode_steps a e = (Ok tt, st) →
  let n := Driver.episode st in
  (1 ≤ n ≤ max_episodes)%nat
  ∧ length (Driver.navs st) = n
  ∧ length (Driver.market_navs st) = n
  ∧ length (Driver.diffs st) = n
  ∧ Driver.diffs st = zip_with sub (Driver.navs st) (Driver.market_navs st)
  ∧ (∃ t, Results.results (Z.of_nat n) (Driver.navs st)
            (Driver.market_navs st) (Driver.diffs st) = Ok t)
  ∧ ((n < max_episodes)%nat →
       (25 < n)%nat
       ∧ Forall (λ d, Results.positive d = true)
           (lastn 25 (Driver.diffs st)))
  ∧ (∀ i, (0 < i < n)%nat →
       ¬ ((25 < i)%nat
          ∧ Forall (λ d, Results.positive d = true)
              (lastn 25 (take i (Driver.diffs st))))).
Proof.
  intros Hmax Hrun. unfold Driver.training in Hrun.
  apply episodes_from_inv in Hrun; [| done | done | done | done].
  simpl in Hrun.
  destruct Hrun as [[-> _] | (Hl & He & Hn & Hm & Hd & Hs & Hno & _)]; [lia|].
  simpl. rewrite He.
  split_and!; try done; try lia.
  - unfold Results.results, Results.episode_index.
    rewrite length_map, length_seq, Nat2Z.id, Hn, Hm, !Nat.eqb_refl. simpl.
    eauto.
  - intros Hlt. apply stop_spec, Hs. lia.
  - intros i Hi Hcond.
    assert (Hi' : (i ≤ length (Driver.diffs st))%nat) by lia.
    specialize (Hno i ltac:(lia)).
    assert (Hstop : Driver.stop (take i (Driver.diffs st)) = true).
    { apply stop_spec. rewrite length_take.
      by replace (i `min` length (Driver.diffs st))%nat with i by lia. }
    congruence.
Qed.

End DriverFacts.

(** ** When learning starts, and what an exception leaves behind *)

Section WarmUpFacts.

Context {R : Type} `{Num R} {obs weights internals : Type}.
Context (forward : @Agent.network weights internals → obs → list R).
Context (train_on_batch :
  @Agent.network weights internals → list obs → list (list R)
  → @Agent.network weights internals * R).

Abbreviation agent := (@Agent.DDQNAgent R obs weights internals).
Abbreviation run := (Agent.run forward train_on_batch).
Abbreviation step := (Agent.step forward train_on_batch).
Abbreviation experience_replay :=
  (Agent.experience_replay forward train_on_batch).

Lemma step_buffer (self : agent) (c : Agent.call) :
  Agent.batch_size (step self c) = Agent.batch_size self
  ∧ maxlen (Agent.experience (step self c)) = maxlen (Agent.experience self)
  ∧ (length (items (Agent.experience (step self c)))
     ≤ length (items (Agent.experience self))
       + (if c is Agent.Memorize _ _ _ _ _ then 1 else 0))%nat
  ∧ ((length (items (Agent.experience self))
      ≤ maxlen (Agent.experience self))%nat →
     (length (items (Agent.experience (step self c)))
      ≤ maxlen (Agent.experience self))%nat).
Proof.
  destruct c as [state u c | s a r s' nd | rnd]; simpl.
  - pose proof (epsilon_greedy_policy_frame forward state u c self) as Hf.
    simpl in Hf. rewrite Hf. destruct self; simpl. split_and!; done || lia.
  - destruct (memorize_transition_frame s a r s' nd self)
      as (_ & _ & _ & _ & _ & Hb & _ & _ & _ & _ & _ & He).
    rewrite Hb, He. unfold Deque.append. simpl.
    rewrite length_app. simpl.
    destruct (Nat.ltb_spec (maxlen (Agent.experience self))
                (length (items (Agent.experience self)) + 1));
      rewrite ?length_drop, ?length_app; simpl; split_and!; done || lia.
  - destruct (experience_replay_frame forward train_on_batch rnd self)
      as (He & _ & _ & Hb & _).
    rewrite Hb, He. split_and!; done || lia.
Qed.

Lemma run_buffer (self : agent) (calls : list Agent.call) :
  Agent.batch_size (run self calls) = Agent.batch_size self
  ∧ maxlen (Agent.experience (run self calls)) =
      maxlen (Agent.experience self)
  ∧ (length (items (Agent.experience (run self calls)))
     ≤ length (items (Agent.experience self)) + length (recorded calls))%nat
  ∧ ((length (items (Agent.experience self))
      ≤ maxlen (Agent.experience self))%nat →
     (length (items (Agent.experience (run self calls)))
      ≤ maxlen (Agent.experience self))%nat).
Proof.
  induction calls as [| c calls (IHb & IHm & IHl & IHc)] using rev_ind.
  - simpl. split_and!; done || lia.
  - rewrite (run_snoc forward train_on_batch), recorded_snoc, length_app.
    destruct (step_buffer (run self calls) c) as (Hb & Hm & Hl & Hc).
    rewrite Hb, Hm, IHb, IHm. split_and!; try done.
    + destruct c; simpl in *; lia.
    + intros Hcap. rewrite IHm in Hc. auto.
Qed.

Lemma run_no_learning (self : agent) (calls : list Agent.call) :
  (∀ pre suf, calls = pre ++ suf →
     Deque.len (Agent.experience (run self pre)) < Agent.batch_size self) →
  Agent.losses (run self calls) = Agent.losses self
  ∧ Agent.online_network (run self calls) = Agent.online_network self
  ∧ Agent.target_network (run self calls) = Agent.target_network self.
Proof.
  induction calls as [| c calls IH] using rev_ind; intros Hsmall; [done|].
  destruct IH as (IHl & IHo & IHt).
  { intros pre suf ->. apply (Hsmall pre (suf ++ [c])). by rewrite app_assoc. }
  specialize (Hsmall calls [c] eq_refl).
  rewrite (run_snoc forward train_on_batch).
  destruct (run_buffer self calls) as (Hb & _).
  rewrite <- IHl, <- IHo, <- IHt.
  destruct c as [state u c | s a r s' nd | rnd]; simpl.
  - pose proof (epsilon_greedy_policy_frame forward state u c
                  (run self calls)) as Hf.
    simpl in Hf. rewrite Hf. by destruct (run self calls).
  - by destruct (memorize_transition_frame s a r s' nd (run self calls))
      as (-> & -> & -> & _).
  - unfold Agent.experience_replay. rewrite Hb.
    by destruct (Z.gtb_spec (Agent.batch_size self)
                   (Deque.len (Agent.experience (run self calls))));
      [| lia].
Qed.

(** X19.  Learning starts only when the buffer holds a batch: while the
    transitions in the buffer and the ones recorded since are fewer than
    [batch_size], no call trains the online network, changes the target
    network or records a loss. *)
Theorem no_learning_before_first_batch (self : agent)
    (calls : list Agent.call) :
  Z.of_nat (length (items (Agent.experience self)) + length (recorded calls))
    < Agent.batch_size self →
  Agent.losses (run self calls) = Agent.losses self
  ∧ Agent.online_network (run self calls) = Agent.online_network self
  ∧ Agent.target_network (run self calls) = Agent.target_network self.
Proof.
  intros Hfew. apply run_no_learning. intros pre suf ->.
  destruct (run_buffer self pre) as (_ & _ & Hl & _).
  assert (Hrec : length (recorded (pre ++ suf)) =
                 (length (recorded pre) + length (recorded suf))%nat)
    by (unfold recorded; by rewrite omap_app, length_app).
  rewrite Hrec in Hfew. unfold Deque.len. lia.
Qed.

(** X20.  An agent whose replay capacity is below its batch size never
    learns: the buffer never holds a batch, so no call, however many
    transitions are recorded, trains the online network, changes the target
    network or records a loss. *)
Theorem capacity_below_batch_size_never_learns (self : agent)
    (calls : list Agent.call) :
  (length (items (Agent.experience self))
   ≤ maxlen (Agent.experience self))%nat →
  Z.of_nat (maxlen (Agent.experience self)) < Agent.batch_size self →
  Agent.losses (run self calls) = Agent.losses self
  ∧ Agent.online_network (run self calls) = Agent.online_network self
  ∧ Agent.target_network (run self calls) = Agent.target_network self.
Proof.
  intros Hcap Hsmall. apply run_no_learning. intros pre suf ->.
  destruct (run_buffer self pre) as (_ & _ & _ & Hc).
  specialize (Hc Hcap). unfold Deque.len. lia.
Qed.





End WarmUpFacts.

(** ** The further properties at concrete inputs *)


Lemma evaluation_mode_keeps_epsilon_witness :
  Agent.train Samples.evaluating = false
  ∧ Agent.epsilon (Demo.run Samples.evaluating Demo.short_episode)
    = Agent.epsilon Samples.evaluating
  ∧ Agent.episodes (Demo.run Samples.evaluating Demo.short_episode) = 1.
Proof.
  split; [reflexivity|].
  destruct (evaluation_mode_keeps_epsilon Tabular.forward
              Tabular.train_on_batch Samples.evaluating Demo.short_episode)
    as (_ & He & Hn); [reflexivity|].
  split; [exact He|]. etransitivity; [exact Hn | reflexivity].
Defined.

Lemma experience_replay_bad_batch_size_witness :
  Agent.batch_size (Demo.start 2 2 0) ≤ 0
  ∧ Agent.experience_replay Tabular.forward Tabular.train_on_batch [0%nat]
      (Demo.start 2 2 0) = (Raise ValueError, Demo.start 2 2 0).
Proof.
  split; [simpl; lia|].
  apply (experience_replay_bad_batch_size Tabular.forward
           Tabular.train_on_batch [0%nat] (Demo.start 2 2 0)).
  simpl. lia.
Defined.

Lemma experience_replay_zero_tau_witness :
  let self := Demo.run (Demo.start 2 0 1) Demo.two_steps in
  Agent.tau self = 0
  ∧ Agent.batch_size self ≤ Deque.len (Agent.experience self)
  ∧ ∃ e, (Agent.experience_replay Tabular.forward Tabular.train_on_batch
            [0%nat] self).1 = Raise e.
Proof.
  intros self. split; [reflexivity|]. split; [vm_compute; discriminate|].
  destruct (experience_replay_zero_tau Tabular.forward Tabular.train_on_batch
              [0%nat] self) as (He & _).
  - reflexivity.
  - vm_compute. discriminate.
  - exact He.
Defined.

Lemma learning_update_witness :
  let self := Demo.run (Demo.start 2 2 1) Demo.two_steps in
  Agent.idx self = Agent.tf_range (Agent.batch_size self)
  ∧ 1 ≤ Agent.batch_size self ≤ Deque.len (Agent.experience self)
  ∧ ∃ minibatch,
      minibatch ⊆+ items (Agent.experience self)
      ∧ length minibatch = Z.to_nat (Agent.batch_size self).
Proof.
  intros self. split; [reflexivity|].
  assert (Hbs : 1 ≤ Agent.batch_size self ≤ Deque.len (Agent.experience self))
    by (vm_compute; split; discriminate).
  split; [exact Hbs|].
  destruct (learning_update Tabular.forward Tabular.train_on_batch [0%nat]
              self 3) as (mb & _ & _ & Hsub & Hlen & _).
  - reflexivity.
  - exact Hbs.
  - repeat constructor; vm_compute; discriminate.
  - exists mb. split; assumption.
Defined.

Lemma networks_until_first_loss_witness :
  Demo.init 2 2 2 = Ok (Demo.start 2 2 2)
  ∧ Agent.losses (Demo.run (Demo.start 2 2 2) Demo.two_steps) = []
  ∧ Agent.online_network (Demo.run (Demo.start 2 2 2) Demo.two_steps)
    = Demo.zeros.
Proof.
  split; [reflexivity|]. split; [reflexivity|].
  destruct (networks_until_first_loss Tabular.forward Tabular.train_on_batch
              Tabular.build_model 2 3 (Demo.q 1 10000) (Demo.q 99 100)
              (Demo.q 1 1) (Demo.q 1 100) 250 (Demo.q 99 100) 2 [4]
              (Demo.q 1 1000000) 2 2 (Demo.start 2 2 2) Demo.two_steps)
    as (Hon & _).
  - reflexivity.
  - reflexivity.
  - exact Hon.
Defined.

Lemma flat_label_two_levels_witness :
  clean "b" ∧ clean "c"
  ∧ Frame.flat_label (Frame.Levels ["b"%string; "c"%string]) = "b c"%string.
Proof.
  assert (Hb : clean "b") by (split; intros c [= <-]; reflexivity).
  assert (Hc : clean "c") by (split; intros c [= <-]; reflexivity).
  split; [exact Hb|]. split; [exact Hc|].
  etransitivity; [exact (flat_label_two_levels "b" "c" Hb Hc) | reflexivity].
Defined.

Lemma flat_label_of_string_witness :
  clean "ab"
  ∧ chars (Frame.flat_label (Frame.Flat "ab")) = chars "a b"
  ∧ Frame.flat_label (Frame.Flat "ab") ≠ "ab"%string.
Proof.
  assert (Hab : clean "ab") by (split; intros c [= <-]; reflexivity).
  split; [exact Hab|].
  destruct (flat_label_of_string "ab" Hab) as (Hs & _ & Hne).
  split; [exact Hs|]. apply Hne. simpl. lia.
Defined.



Lemma win_ratio_is_last_strategy_wins_witness :
  (100 ≤ length Demo.diffs)%nat
  ∧ ∃ t w,
      Results.results 100 Demo.navs Demo.navs Demo.diffs = Ok t
      ∧ Results.Strategy_Wins t !! 99%nat = Some (Some w)
      ∧ win_ratio Demo.diffs = (of_Z w / of_Z 100)%py.
Proof.
  assert (Hlen : (100 ≤ length Demo.diffs)%nat) by (vm_compute; lia).
  split; [exact Hlen|].
  destruct (Results.results 100 Demo.navs Demo.navs Demo.diffs)
    as [t | e] eqn:Hres; [| vm_compute in Hres; discriminate Hres].
  destruct (win_ratio_is_last_strategy_wins 100 Demo.navs Demo.navs
              Demo.diffs t Hres Hlen) as (w & Hw & Hratio).
  exists t, w. split; [reflexivity|]. split; [exact Hw | exact Hratio].
Defined.

Lemma episode_steps_counters_witness :
  let out :=
    Driver.episode_steps Tabular.forward Tabular.train_on_batch
      Samples.env_step Samples.draws 5 1 0 0%nat 0%nat (Demo.start 2 2 2) in
  truthy (of_Z 0 : Qc) = false
  ∧ truthy (of_Z 1 : Qc) = true
  ∧ out.1 = Ok true
  ∧ Agent.episodes out.2.2 = 1
  ∧ Agent.steps_per_episode out.2.2 = [2].
Proof.
  intros out.
  assert (H0 : truthy (of_Z 0 : Qc) = false) by reflexivity.
  assert (H1 : truthy (of_Z 1 : Qc) = true) by reflexivity.
  assert (Hout : out = (Ok true, (out.2.1, out.2.2)))
    by (vm_compute; reflexivity).
  split; [exact H0|]. split; [exact H1|]. split; [vm_compute; reflexivity|].
  destruct (episode_steps_counters Tabular.forward Tabular.train_on_batch
              Samples.env_step Samples.draws 5 1 0 0%nat out.2.1 0%nat
              (Demo.start 2 2 2) out.2.2 true H0 H1 Hout)
    as (steps & _ & Ht & _ & He & Hs & _).
  split; [exact He|].
  assert (Hsteps : steps = 3%nat).
  { assert (Htot : Agent.total_steps out.2.2 = 3) by (vm_compute; reflexivity).
    rewrite Htot in Ht. simpl in Ht. lia. }
  rewrite Hs, Hsteps. reflexivity.
Defined.

Lemma training_loop_lists_witness :
  let out :=
    Driver.training Tabular.forward Tabular.train_on_batch Samples.reset
      Samples.env_step Samples.final Samples.draws 2 5 (Demo.start 2 2 2)
      0%nat in
  (1 ≤ 2)%nat
  ∧ out.1 = Ok tt
  ∧ length (Driver.navs out.2) = Driver.episode out.2
  ∧ length (Driver.diffs out.2) = Driver.episode out.2
  ∧ ∃ t, Results.results (Z.of_nat (Driver.episode out.2))
           (Driver.navs out.2) (Driver.market_navs out.2)
           (Driver.diffs out.2) = Ok t.
Proof.
  intros out.
  assert (Hout : out = (Ok tt, out.2)) by (vm_compute; reflexivity).
  split; [lia|]. split; [vm_compute; reflexivity|].
  destruct (training_loop_lists Tabular.forward Tabular.train_on_batch
              Samples.reset Samples.env_step Samples.final Samples.draws
              2 5 (Demo.start 2 2 2) 0%nat out.2 ltac:(lia) Hout)
    as (_ & Hn & _ & Hd & _ & Ht & _).
  split; [exact Hn|]. split; [exact Hd | exact Ht].
Defined.

Lemma no_learning_before_first_batch_witness :
  Z.of_nat (length (items (Agent.experience (Demo.start 2 2 2)))
            + length (recorded Demo.two_steps))
    < Agent.batch_size (Demo.start 2 2 2)
  ∧ Agent.losses (Demo.run (Demo.start 2 2 2) Demo.two_steps) = [].
Proof.
  assert (Hfew : Z.of_nat (length (items (Agent.experience (Demo.start 2 2 2)))
                           + length (recorded Demo.two_steps))
                 < Agent.batch_size (Demo.start 2 2 2)) by reflexivity.
  split; [exact Hfew|].
  destruct (no_learning_before_first_batch Tabular.forward
              Tabular.train_on_batch (Demo.start 2 2 2) Demo.two_steps Hfew)
    as (Hl & _).
  exact Hl.
Defined.

Lemma capacity_below_batch_size_never_learns_witness :
  let calls := Demo.three_records ++ [Agent.Replay [0%nat]] in
  (length (items (Agent.experience (Demo.start 1 2 2)))
   ≤ maxlen (Agent.experience (Demo.start 1 2 2)))%nat
  ∧ Z.of_nat (maxlen (Agent.experience (Demo.start 1 2 2)))
    < Agent.batch_size (Demo.start 1 2 2)
  ∧ Agent.losses (Demo.run (Demo.start 1 2 2) calls) = [].
Proof.
  intros calls.
  assert (Hcap : (length (items (Agent.experience (Demo.start 1 2 2)))
                  ≤ maxlen (Agent.experience (Demo.start 1 2 2)))%nat)
    by (simpl; lia).
  assert (Hsmall : Z.of_nat (maxlen (Agent.experience (Demo.start 1 2 2)))
                   < Agent.batch_size (Demo.start 1 2 2)) by reflexivity.
  split; [exact Hcap|]. split; [exact Hsmall|].
  destruct (capacity_below_batch_size_never_learns Tabular.forward
              Tabular.train_on_batch (Demo.start 1 2 2) calls Hcap Hsmall)
    as (Hl & _).
  exact Hl.
Defined.

